(** * HOTP / TOTP token generation (totp.py) and key URIs (uri.py)

    A shallow embedding of the two Python 2 modules of the repository,
    together with the parts of the Python standard library they call
    (struct, hashlib.sha1, hmac, base64.b32encode, urllib.quote and
    urllib.urlencode), followed by the properties of the token pipeline. *)

From Stdlib Require Import ZArith NArith List Lia Bool String Ascii Permutation.
From Stdlib Require Import Strings.Byte DecimalString.
Import ListNotations.
Local Open Scope Z_scope.

(** ** Python values and outcomes *)

Module Py.

(** The exceptions the modelled code can raise. *)
Inductive exn : Type :=
| ZeroDivisionError
| IndexError
| StructError.

(** Outcome of evaluating a Python expression.  [Inexact] marks an
    evaluation that left exact integer arithmetic (an operand became a
    float); such an evaluation is not followed any further. *)
Inductive result (A : Type) : Type :=
| Return (a : A)
| Raise (e : exn)
| Inexact.

Arguments Return {A} a.
Arguments Raise {A} e.
Arguments Inexact {A}.

Definition bind {A B : Type} (m : result A) (k : A -> result B) : result B :=
  match m with
  | Return a => k a
  | Raise e => Raise e
  | Inexact => Inexact
  end.

(** A str of Python 2 is a sequence of bytes. *)
Definition bytes : Type := list byte.

Definition ord (b : byte) : Z := Z.of_N (Byte.to_N b).

Definition chr (z : Z) : byte :=
  match Byte.of_N (Z.to_N (z mod 256)) with
  | Some b => b
  | None => x00
  end.

Definition len (s : bytes) : Z := Z.of_nat (List.length s).

(** [a / b] on int and long: floor division, ZeroDivisionError on 0. *)
Definition floordiv (a b : Z) : result Z :=
  if b =? 0 then Raise ZeroDivisionError else Return (a / b).

(** A number as [**] can produce it from two ints. *)
Inductive num : Type :=
| Int (z : Z)
| Float.

(** [b ** e] on ints: an int when the exponent is not negative, a float
    otherwise. *)
Definition pow (b e : Z) : num :=
  if e <? 0 then Float else Int (b ^ e).

(** [a % m] for an int [a]: the remainder has the sign of the modulus. *)
Definition mod_ (a : Z) (m : num) : result Z :=
  match m with
  | Float => Inexact
  | Int m => if m =? 0 then Raise ZeroDivisionError else Return (a mod m)
  end.

(** [s[i]]: one-character string, negative indices count from the end. *)
Definition getitem (s : bytes) (i : Z) : result bytes :=
  let j := if i <? 0 then i + len s else i in
  if (j <? 0) || (len s <=? j) then Raise IndexError
  else match nth_error s (Z.to_nat j) with
       | Some b => Return [b]
       | None => Raise IndexError
       end.

Definition clamp_index (n i : Z) : Z :=
  if i <? 0 then Z.max 0 (i + n) else Z.min i n.

(** [s[lo:hi]]: never raises, indices are clamped to the string. *)
Definition slice (s : bytes) (lo hi : Z) : bytes :=
  let a := clamp_index (len s) lo in
  let b := clamp_index (len s) hi in
  firstn (Z.to_nat (b - a)) (skipn (Z.to_nat a) s).

End Py.

Import Py.

Notation "x <- m ;; k" := (Py.bind m (fun x => k))
  (at level 61, m at next level, right associativity).

(** ** struct: packing and unpacking of fixed-width integers *)

Module Struct.

(** Big-endian reading of a byte string as an unsigned integer. *)
Definition from_be (s : bytes) : Z :=
  fold_left (fun acc b => acc * 256 + ord b) s 0.

(** The [n] low-order bytes of [z], most significant first. *)
Fixpoint to_be (n : nat) (z : Z) : bytes :=
  match n with
  | O => []
  | S k => chr (Z.shiftr z (8 * Z.of_nat k)) :: to_be k z
  end.

(** [struct.pack('>Q', z)] *)
Definition pack_Q (z : Z) : result bytes :=
  if (0 <=? z) && (z <? 2 ^ 64) then Return (to_be 8 z)
  else Raise StructError.

(** [struct.unpack('B', s)[0]] *)
Definition unpack_B (s : bytes) : result Z :=
  match s with
  | [b] => Return (ord b)
  | _ => Raise StructError
  end.

(** [struct.unpack('>I', s)[0]] *)
Definition unpack_I (s : bytes) : result Z :=
  if (List.length s =? 4)%nat then Return (from_be s) else Raise StructError.

End Struct.

(** ** hashlib.sha1 (FIPS 180-4) *)

Module SHA1.

Definition w32 (z : Z) : Z := Z.land z 0xFFFFFFFF.

Definition add32 (x y : Z) : Z := w32 (x + y).

Definition rotl (n x : Z) : Z :=
  w32 (Z.lor (Z.shiftl x n) (Z.shiftr x (32 - n))).

Definition not32 (x : Z) : Z := Z.lxor x 0xFFFFFFFF.

Definition f (t : nat) (b c d : Z) : Z :=
  if (t <? 20)%nat then Z.lor (Z.land b c) (Z.land (not32 b) d)
  else if (t <? 40)%nat then Z.lxor (Z.lxor b c) d
  else if (t <? 60)%nat then
    Z.lor (Z.lor (Z.land b c) (Z.land b d)) (Z.land c d)
  else Z.lxor (Z.lxor b c) d.

Definition K (t : nat) : Z :=
  if (t <? 20)%nat then 0x5A827999
  else if (t <? 40)%nat then 0x6ED9EBA1
  else if (t <? 60)%nat then 0x8F1BBCDC
  else 0xCA62C1D6.

Record state : Type := mkState { h0 : Z; h1 : Z; h2 : Z; h3 : Z; h4 : Z }.

Definition init : state :=
  mkState 0x67452301 0xEFCDAB89 0x98BADCFE 0x10325476 0xC3D2E1F0.

(** Message padding: a 1 bit, zeros, and the bit length on 64 bits. *)
Definition pad (msg : bytes) : bytes :=
  let k := Z.to_nat ((55 - len msg) mod 64) in
  msg ++ [x80] ++ repeat x00 k ++ Struct.to_be 8 (8 * len msg).

Fixpoint chunks (fuel n : nat) (s : bytes) : list bytes :=
  match fuel with
  | O => []
  | S fuel' =>
      match s with
      | [] => []
      | _ => firstn n s :: chunks fuel' n (skipn n s)
      end
  end.

Definition words (block : bytes) : list Z :=
  map Struct.from_be (chunks 16 4 block).

(** Message schedule, most recent word first. *)
Fixpoint expand (n : nat) (ws : list Z) : list Z :=
  match n with
  | O => ws
  | S k =>
      let x := Z.lxor (Z.lxor (nth 2 ws 0) (nth 7 ws 0))
                      (Z.lxor (nth 13 ws 0) (nth 15 ws 0)) in
      expand k (rotl 1 x :: ws)
  end.

Definition schedule (block : bytes) : list Z :=
  rev (expand 64 (rev (words block))).

Definition round (st : state * nat) (wt : Z) : state * nat :=
  let '(mkState a b c d e, t) := st in
  let temp := add32 (add32 (add32 (add32 (rotl 5 a) (f t b c d)) e) wt) (K t) in
  (mkState temp a (rotl 30 b) c d, S t).

Definition compress (h : state) (block : bytes) : state :=
  let '(mkState a b c d e, _) := fold_left round (schedule block) (h, O) in
  mkState (add32 (h0 h) a) (add32 (h1 h) b) (add32 (h2 h) c)
          (add32 (h3 h) d) (add32 (h4 h) e).

Definition output (h : state) : bytes :=
  Struct.to_be 4 (h0 h) ++ Struct.to_be 4 (h1 h) ++ Struct.to_be 4 (h2 h)
    ++ Struct.to_be 4 (h3 h) ++ Struct.to_be 4 (h4 h).

(** [hashlib.sha1(msg).digest()] *)
Definition digest (msg : bytes) : bytes :=
  let p := pad msg in
  output (fold_left compress (chunks (List.length p) 64 p) init).

End SHA1.

(** ** hmac (RFC 2104) *)

Module Hmac.

(** A hash constructor as hmac uses it: the digest and its block size. *)
Record hashfunc : Type := mkHash {
  hash_digest : bytes -> bytes;
  block_size : nat
}.

Definition sha1 : hashfunc := mkHash SHA1.digest 64.

Definition xor_with (c : Z) (s : bytes) : bytes :=
  map (fun b => chr (Z.lxor (ord b) c)) s.

(** [hmac.new(key, msg, h).digest()] *)
Definition new_digest (key msg : bytes) (h : hashfunc) : bytes :=
  let blocksize := if (block_size h <? 16)%nat then 64%nat else block_size h in
  let key1 :=
    if (blocksize <? List.length key)%nat then hash_digest h key else key in
  let key2 := key1 ++ repeat x00 (blocksize - List.length key1) in
  let inner := hash_digest h (xor_with 0x36 key2 ++ msg) in
  hash_digest h (xor_with 0x5C key2 ++ inner).

End Hmac.

(** ** totp.py *)

Module Totp.

Definition DEFAULT_TIME_STEP : Z := 30.
Definition DEFAULT_EPOCH : Z := 0.
Definition DEFAULT_DIGITS : Z := 6.

(** A message of [hmac_digest], and so a counter of [hotp], is an integer
    (int or long) or a byte string. *)
Inductive message : Type :=
| MInt (n : Z)
| MBytes (s : bytes).

(** [int(timegm(gmtime()))].  The system clock is an explicit input:
    [clock] is the number of whole seconds since the Unix Epoch at the
    time of the call. *)
Definition current_timestamp_utc (clock : Z) : Z := clock.

(** [time_steps(current=None, epoch=DEFAULT_EPOCH, step=DEFAULT_TIME_STEP)]:
    [(long(current) - int(epoch)) / int(step)], on integers. *)
Definition time_steps (clock : Z) (current : option Z) (epoch step : Z)
  : result Z :=
  let current :=
    match current with
    | None => current_timestamp_utc clock
    | Some c => c
    end in
  floordiv (current - epoch) step.

(** [hmac_digest(key, message, hashfunc=hashlib.sha1)]: an integer
    message is replaced by [struct.pack('>Q', message)]. *)
Definition hmac_digest (key : bytes) (msg : message) (hashfunc : Hmac.hashfunc)
  : result bytes :=
  message <- match msg with
             | MInt n => Struct.pack_Q n
             | MBytes s => Return s
             end ;;
  Return (Hmac.new_digest key message hashfunc).

(** [truncate(digest, digits=DEFAULT_DIGITS)] *)
Definition truncate (digest : bytes) (digits : Z) : result Z :=
  last <- getitem digest (-1) ;;
  byte <- Struct.unpack_B last ;;
  let offset := Z.land byte 15 in
  let codestr := slice digest offset (offset + 4) in
  code <- Struct.unpack_I codestr ;;
  let code := Z.land code (Z.lnot (Z.shiftl 1 31)) in
  mod_ code (pow 10 digits).

(** [hotp(key, counter, hashfunc=hashlib.sha1)]:
    [truncate(hmac_digest(key, counter, hashfunc))] *)
Definition hotp (key : bytes) (counter : message) (hashfunc : Hmac.hashfunc)
  : result Z :=
  digest <- hmac_digest key counter hashfunc ;;
  truncate digest DEFAULT_DIGITS.

(** [totp(key, current=None, epoch=DEFAULT_EPOCH, step=DEFAULT_TIME_STEP)]:
    [hotp(key, time_steps(current, epoch, step))] *)
Definition totp (clock : Z) (key : bytes) (current : option Z) (epoch step : Z)
  : result Z :=
  counter <- time_steps clock current epoch step ;;
  hotp key (MInt counter) Hmac.sha1.

End Totp.

Import Totp.

(** ** base64.b32encode (RFC 4648, with padding) *)

Module Base32.

Definition bs (s : string) : bytes := list_byte_of_string s.

Definition b32tab : bytes := bs "ABCDEFGHIJKLMNOPQRSTUVWXYZ234567".

Definition b32char (v : Z) : byte := nth (Z.to_nat v) b32tab x00.

(** The eight groups of five bits of a 40-bit number, most significant
    first. *)
Definition quintets (n : Z) : list Z :=
  map (fun k => Z.land (Z.shiftr n k) 31) [35; 30; 25; 20; 15; 10; 5; 0].

(** The eight characters of a quantum of five bytes. *)
Definition encode_quantum (q : bytes) : bytes :=
  map b32char (quintets (Struct.from_be q)).

Definition pad_char : byte := "="%byte.

(** The last quantum is filled with zero bits, and the characters that
    carry none of the input are replaced by the pad character. *)
Fixpoint b32encode (s : bytes) : bytes :=
  match s with
  | [] => []
  | [a] => firstn 2 (encode_quantum [a; x00; x00; x00; x00]) ++ repeat pad_char 6
  | [a; b] => firstn 4 (encode_quantum [a; b; x00; x00; x00]) ++ repeat pad_char 4
  | [a; b; c] => firstn 5 (encode_quantum [a; b; c; x00; x00]) ++ repeat pad_char 3
  | [a; b; c; d] => firstn 7 (encode_quantum [a; b; c; d; x00]) ++ repeat pad_char 1
  | a :: b :: c :: d :: e :: rest => encode_quantum [a; b; c; d; e] ++ b32encode rest
  end.

End Base32.

(** ** urllib.quote, urllib.quote_plus and urllib.urlencode *)

Module Urllib.

Import Base32.

Definition always_safe : bytes :=
  bs "ABCDEFGHIJKLMNOPQRSTUVWXYZabcdefghijklmnopqrstuvwxyz0123456789_.-".

Definition mem (c : byte) (s : bytes) : bool := existsb (Byte.eqb c) s.

Definition hex_digit (v : Z) : byte := nth (Z.to_nat v) (bs "0123456789ABCDEF") x00.

(** ['%{:02X}'.format(ord(c))] *)
Definition percent (c : byte) : bytes :=
  ["%"%byte; hex_digit (ord c / 16); hex_digit (ord c mod 16)].

Definition quoter (safe : bytes) (c : byte) : bytes :=
  if ((ord c <? 128) && mem c always_safe) || mem c safe then [c]
  else percent c.

(** [quote(s, safe)] *)
Definition quote (s safe : bytes) : bytes := flat_map (quoter safe) s.

Definition replace (x y : byte) (s : bytes) : bytes :=
  map (fun c => if Byte.eqb c x then y else c) s.

(** [quote_plus(s)], with its default [safe=''] *)
Definition quote_plus (s : bytes) : bytes :=
  if mem " "%byte s then replace " "%byte "+"%byte (quote s (bs " "))
  else quote s [].

(** What [quote_plus] does to one character. *)
Definition plus_quoter (c : byte) : bytes :=
  if Byte.eqb c " "%byte then ["+"%byte] else quoter [] c.

(** The characters that delimit the parts of a URI and of a query. *)
Definition delimiter (c : byte) : bool := mem c (bs "&=?#").

(** [sep.join(l)] *)
Fixpoint join (sep : bytes) (l : list bytes) : bytes :=
  match l with
  | [] => []
  | [x] => x
  | x :: rest => x ++ sep ++ join sep rest
  end.

(** The values a query dictionary holds here. *)
Inductive value : Type :=
| VStr (s : bytes)
| VInt (z : Z).

(** [str(v)] *)
Definition str (v : value) : bytes :=
  match v with
  | VStr s => s
  | VInt z => list_byte_of_string (NilZero.string_of_int (Z.to_int z))
  end.

(** [quote_plus(str(k)) + '=' + quote_plus(str(v))]; the keys are
    strings already. *)
Definition encoded_pair (kv : bytes * value) : bytes :=
  quote_plus (fst kv) ++ bs "=" ++ quote_plus (str (snd kv)).

(** [urlencode(query)] on the items of the dictionary, in the order the
    dictionary yields them. *)
Definition urlencode (query : list (bytes * value)) : bytes :=
  join (bs "&") (map encoded_pair query).

End Urllib.

(** ** uri.py *)

Module Uri.

Import Base32 Urllib.

Section KeyUri.

(** Iteration order of a Python 2 dict: [dict_items d] lists the items
    of the dict built from the literal [d]. *)
Variable dict_items : list (bytes * value) -> list (bytes * value).

Definition key_uri (key issuer accountname : bytes) (digits step : value)
  : bytes :=
  let params := dict_items
    [ (bs "secret", VStr (b32encode key));
      (bs "issuer", VStr issuer);
      (bs "algorithm", VStr (bs "SHA1"));
      (bs "digits", digits);
      (bs "period", step) ] in
  bs "otpauth://totp/" ++ quote issuer (bs "/") ++ bs ":"
    ++ quote accountname (bs "/") ++ bs "?" ++ urlencode params.

End KeyUri.

End Uri.

(** ** Reading a key URI back

    The consumer of a key URI: the query component of the URI (RFC 3986),
    its form-encoded parameters, and Base32 decoding (RFC 4648). *)

Module Reader.

Import Base32.

(** [break c s]: the text before the first [c], and the text after it
    when [c] occurs. *)
Fixpoint break (c : byte) (s : bytes) : bytes * option bytes :=
  match s with
  | [] => ([], None)
  | x :: rest =>
      if Byte.eqb x c then ([], Some rest)
      else let '(before, after) := break c rest in (x :: before, after)
  end.

(** The query component: after the first '?', up to the first '#'. *)
Definition query_of (uri : bytes) : option bytes :=
  match snd (break "?"%byte uri) with
  | Some q => Some (fst (break "#"%byte q))
  | None => None
  end.

Fixpoint split_fuel (fuel : nat) (c : byte) (s : bytes) : list bytes :=
  match fuel with
  | O => [s]
  | S fuel' =>
      match break c s with
      | (before, Some after) => before :: split_fuel fuel' c after
      | (before, None) => [before]
      end
  end.

(** [s.split(c)] *)
Definition split (c : byte) (s : bytes) : list bytes :=
  split_fuel (List.length s) c s.

Definition hex_value (c : byte) : option Z :=
  let v := ord c in
  if (48 <=? v) && (v <=? 57) then Some (v - 48)
  else if (65 <=? v) && (v <=? 70) then Some (v - 55)
  else if (97 <=? v) && (v <=? 102) then Some (v - 87)
  else None.

(** Percent-decoding; a '%' not followed by two hex digits is kept. *)
Fixpoint unquote (s : bytes) : bytes :=
  match s with
  | [] => []
  | c :: rest =>
      if Byte.eqb c "%"%byte then
        match rest with
        | h :: l :: rest' =>
            match hex_value h, hex_value l with
            | Some a, Some b => chr (16 * a + b) :: unquote rest'
            | _, _ => c :: unquote rest
            end
        | _ => c :: unquote rest
        end
      else c :: unquote rest
  end.

Definition unquote_plus (s : bytes) : bytes :=
  unquote (Urllib.replace "+"%byte " "%byte s).

Definition parse_pair (p : bytes) : bytes * bytes :=
  let '(name, v) := break "="%byte p in
  (unquote_plus name, unquote_plus (match v with Some v => v | None => [] end)).

(** The name/value pairs of a query, in order. *)
Definition parse_qsl (q : bytes) : list (bytes * bytes) :=
  map parse_pair (filter (fun p => negb (Nat.eqb (List.length p) 0)) (split "&"%byte q)).

Definition bytes_eqb (a b : bytes) : bool :=
  if list_eq_dec Byte.byte_eq_dec a b then true else false.

Fixpoint lookup (name : bytes) (l : list (bytes * bytes)) : option bytes :=
  match l with
  | [] => None
  | (k, v) :: rest => if bytes_eqb k name then Some v else lookup name rest
  end.

Definition b32value (c : byte) : option Z :=
  let v := ord c in
  if (65 <=? v) && (v <=? 90) then Some (v - 65)
  else if (50 <=? v) && (v <=? 55) then Some (v - 24)
  else None.

Fixpoint values (s : bytes) : option (list Z) :=
  match s with
  | [] => Some []
  | c :: rest =>
      match b32value c, values rest with
      | Some v, Some vs => Some (v :: vs)
      | _, _ => None
      end
  end.

(** The data characters of a group, and the number of pad characters
    that follow them; [None] when a data character follows a pad. *)
Fixpoint strip_pad (g : bytes) : option (bytes * nat) :=
  match g with
  | [] => Some ([], O)
  | c :: rest =>
      if Byte.eqb c pad_char then
        if forallb (Byte.eqb pad_char) rest then Some ([], S (List.length rest))
        else None
      else match strip_pad rest with
           | Some (d, n) => Some (c :: d, n)
           | None => None
           end
  end.

Definition of_quintets (vs : list Z) : Z :=
  fold_left (fun acc v => acc * 32 + v) vs 0.

(** One group of eight characters: the bytes it carries, and whether it
    was padded. *)
Definition decode_group (g : bytes) : option (bytes * bool) :=
  match strip_pad g with
  | None => None
  | Some (d, npad) =>
      match values d with
      | None => None
      | Some vs =>
          let n := of_quintets (vs ++ repeat 0 npad) in
          let q := Struct.to_be 5 n in
          match npad with
          | 0%nat => Some (q, false)
          | 1%nat => Some (firstn 4 q, true)
          | 3%nat => Some (firstn 3 q, true)
          | 4%nat => Some (firstn 2 q, true)
          | 6%nat => Some (firstn 1 q, true)
          | _ => None
          end
      end
  end.

(** Base32 decoding with mandatory padding: the input is a sequence of
    groups of eight characters, and only the last one may be padded. *)
Fixpoint b32decode (s : bytes) : option bytes :=
  match s with
  | [] => Some []
  | c1 :: c2 :: c3 :: c4 :: c5 :: c6 :: c7 :: c8 :: rest =>
      match decode_group [c1; c2; c3; c4; c5; c6; c7; c8] with
      | None => None
      | Some (q, padded) =>
          if padded then
            match rest with [] => Some q | _ => None end
          else match b32decode rest with
               | Some r => Some (q ++ r)
               | None => None
               end
      end
  | _ => None
  end.

(** The key a key URI carries in its [secret] parameter. *)
Definition secret_of_uri (uri : bytes) : option bytes :=
  match query_of uri with
  | None => None
  | Some q =>
      match lookup (bs "secret") (parse_qsl q) with
      | None => None
      | Some v => b32decode v
      end
  end.

End Reader.

(** ** The label and the alphabet of a key URI *)

Module Label.

Import Base32 Urllib Reader.

(** [s] without its prefix [p], when it starts with [p]. *)
Fixpoint strip_prefix (p s : bytes) : option bytes :=
  match p with
  | [] => Some s
  | x :: p' =>
      match s with
      | [] => None
      | y :: s' => if Byte.eqb x y then strip_prefix p' s' else None
      end
  end.

(** The label of a key URI: the path after "otpauth://totp/", up to the
    query, split at its first ':' into issuer and account name, both
    percent-decoded. *)
Definition label_of (uri : bytes) : option (bytes * bytes) :=
  match strip_prefix (bs "otpauth://totp/") (fst (break "?"%byte uri)) with
  | None => None
  | Some label =>
      match break ":"%byte label with
      | (issuer, Some account) => Some (unquote issuer, unquote account)
      | (_, None) => None
      end
  end.


(** The characters of padded Base32 text. *)
Definition b32_char (c : byte) : bool :=
  mem c b32tab || Byte.eqb c pad_char.

End Label.

(** ** Dynamic truncation as RFC 4226, section 5.3, words it *)

Module Rfc4226.

(** The offset is the low nibble of the last byte; the four bytes from
    the offset on are read as an unsigned 32-bit big-endian integer, its
    most significant bit is cleared, and the value is reduced modulo
    [10^digits]. *)
Definition dynamic_truncation (digest : bytes) (digits : Z) : Z :=
  let offset := Z.to_nat (Z.land (ord (last digest x00)) 0x0F) in
  let byte_at (i : nat) := ord (nth i digest x00) in
  let value :=
    byte_at offset * 2 ^ 24 + byte_at (offset + 1)%nat * 2 ^ 16
    + byte_at (offset + 2)%nat * 2 ^ 8 + byte_at (offset + 3)%nat in
  Z.land value 0x7FFFFFFF mod 10 ^ digits.

End Rfc4226.

(** A 20-byte digest with offset 15: the byte at index 15 is 1, the last
    byte is 0x0F, the others are 0. *)
Definition offset15_digest : bytes :=
  repeat x00 15 ++ [x01; x00; x00; x00; x0f].

(** The key of the RFC 4226 (Appendix D) test vectors. *)
Definition rfc_key : bytes := list_byte_of_string "12345678901234567890".

Import Base32 Urllib Uri Reader Label.

(** * Properties *)

(** ** Bytes and big-endian integers *)

Lemma ord_range (b : byte) : 0 <= ord b < 256.
Proof.
  unfold ord. pose proof (Byte.to_N_bounded b). lia.
Qed.

Lemma chr_ord (b : byte) : chr (ord b) = b.
Proof.
  unfold chr. rewrite Z.mod_small by apply ord_range.
  unfold ord. rewrite N2Z.id, Byte.of_to_N. reflexivity.
Qed.

Lemma ord_chr (z : Z) : ord (chr z) = z mod 256.
Proof.
  unfold chr, ord.
  assert (Hr : 0 <= z mod 256 < 256) by (apply Z.mod_pos_bound; lia).
  destruct (Byte.of_N (Z.to_N (z mod 256))) as [b|] eqn:E.
  - apply Byte.to_of_N in E. rewrite E. lia.
  - apply Byte.of_N_None_iff in E. lia.
Qed.

Lemma to_be_length (n : nat) (z : Z) : List.length (Struct.to_be n z) = n.
Proof.
  induction n as [|n IH]; simpl; [reflexivity | now rewrite IH].
Qed.

Lemma from_be_acc (s : bytes) (acc : Z) :
  fold_left (fun a b => a * 256 + ord b) s acc
  = acc * 256 ^ Z.of_nat (List.length s) + Struct.from_be s.
Proof.
  unfold Struct.from_be. revert acc.
  induction s as [|b s IH]; intros acc.
  - simpl. lia.
  - cbn [fold_left List.length]. rewrite IH. rewrite (IH (0 * 256 + ord b)).
    rewrite Nat2Z.inj_succ, Z.pow_succ_r by lia. ring.
Qed.

Lemma from_be_cons (b : byte) (s : bytes) :
  Struct.from_be (b :: s)
  = ord b * 256 ^ Z.of_nat (List.length s) + Struct.from_be s.
Proof.
  unfold Struct.from_be at 1. cbn [fold_left]. rewrite from_be_acc. ring.
Qed.

Lemma from_be_range (s : bytes) :
  0 <= Struct.from_be s < 256 ^ Z.of_nat (List.length s).
Proof.
  induction s as [|b s IH].
  - cbn. lia.
  - rewrite from_be_cons. cbn [List.length].
    rewrite Nat2Z.inj_succ, Z.pow_succ_r by lia.
    pose proof (ord_range b). nia.
Qed.

(** Reading back the [n] bytes written for [z] gives [z] modulo [256^n]. *)
Lemma from_be_to_be (n : nat) (z : Z) :
  Struct.from_be (Struct.to_be n z) = z mod 256 ^ Z.of_nat n.
Proof.
  induction n as [|n IH].
  - cbn. now rewrite Z.mod_1_r.
  - cbn [Struct.to_be]. rewrite from_be_cons, to_be_length, IH, ord_chr.
    rewrite Z.shiftr_div_pow2 by lia.
    replace (2 ^ (8 * Z.of_nat n)) with (256 ^ Z.of_nat n)
      by (rewrite Z.pow_mul_r by lia; reflexivity).
    rewrite Nat2Z.inj_succ, Z.pow_succ_r by lia.
    rewrite (Z.mul_comm 256).
    rewrite Z.rem_mul_r by lia. ring.
Qed.

(** ** Time steps *)

Lemma time_steps_value (clock c epoch step : Z) :
  step <> 0 ->
  time_steps clock (Some c) epoch step = Return ((c - epoch) / step).
Proof.
  intros Hs. unfold time_steps, floordiv.
  destruct (Z.eqb_spec step 0); [contradiction | reflexivity].
Qed.

Lemma time_steps_zero (clock : Z) (current : option Z) (epoch : Z) :
  time_steps clock current epoch 0 = Raise ZeroDivisionError.
Proof. reflexivity. Qed.

(** ** Packing the counter *)

Lemma pack_Q_in_range (z : Z) :
  0 <= z < 2 ^ 64 -> Struct.pack_Q z = Return (Struct.to_be 8 z).
Proof.
  intros [H0 H1]. unfold Struct.pack_Q.
  apply Z.leb_le in H0. apply Z.ltb_lt in H1. now rewrite H0, H1.
Qed.

Lemma pack_Q_out_of_range (z : Z) :
  z < 0 \/ 2 ^ 64 <= z -> Struct.pack_Q z = Raise StructError.
Proof.
  intros H. unfold Struct.pack_Q.
  destruct (Z.leb_spec 0 z); destruct (Z.ltb_spec z (2 ^ 64)); simpl;
    try reflexivity; lia.
Qed.

(** C1: with the key "12345678901234567890" and SHA-1, the HOTP codes for
    the counters 0, 1 and 9 are 755224, 287082 and 520489, the reference
    values of RFC 4226, Appendix D. *)
Theorem hotp_rfc4226_vectors :
  hotp rfc_key (MInt 0) Hmac.sha1 = Return 755224
  /\ hotp rfc_key (MInt 1) Hmac.sha1 = Return 287082
  /\ hotp rfc_key (MInt 9) Hmac.sha1 = Return 520489.
Proof.
  repeat split; vm_compute; reflexivity.
Qed.

(** C3: for a positive step, [time_steps] returns the floor of
    (current - epoch) / step: the unique q with
    step * q <= current - epoch < step * (q + 1), which for a negative
    difference lies below the quotient truncated toward zero; so
    time_steps(59, 0, 30) = 1, time_steps(60, 0, 30) = 2 and
    time_steps(29, 0, 30) = 0. *)
Theorem time_steps_floor_division :
  (forall clock current epoch step : Z,
      0 < step ->
      exists q,
        time_steps clock (Some current) epoch step = Return q
        /\ step * q <= current - epoch < step * (q + 1)
        /\ (current - epoch < 0 -> q <= Z.quot (current - epoch) step))
  /\ (forall clock,
         time_steps clock (Some 59) 0 30 = Return 1
         /\ time_steps clock (Some 60) 0 30 = Return 2
         /\ time_steps clock (Some 29) 0 30 = Return 0
         /\ time_steps clock (Some (-1)) 0 30 = Return (-1)).
Proof.
  split.
  - intros clock current epoch step Hs.
    exists ((current - epoch) / step).
    rewrite time_steps_value by lia.
    split; [reflexivity|]. split.
    + pose proof (Z.mul_div_le (current - epoch) step Hs).
      pose proof (Z.mul_succ_div_gt (current - epoch) step Hs). lia.
    + intros _. Z.to_euclidean_division_equations. nia.
  - intros clock. repeat split.
Qed.

Lemma time_steps_floor_division_witness :
  exists q, time_steps 0 (Some (-1)) 0 30 = Return q
            /\ 30 * q <= -1 - 0 < 30 * (q + 1)
            /\ (-1 - 0 < 0 -> q <= Z.quot (-1 - 0) 30).
Proof.
  apply (proj1 time_steps_floor_division 0 (-1) 0 30). lia.
Defined.

(** ** Dynamic truncation *)

Lemma land_clear_bit31 (x : Z) :
  0 <= x < 2 ^ 32 ->
  Z.land x (Z.lnot (Z.shiftl 1 31)) = Z.land x 0x7FFFFFFF.
Proof.
  intros Hx. apply Z.bits_inj'. intros n Hn.
  rewrite !Z.land_spec.
  destruct (Z.ltb_spec n 32) as [Hlt|Hge].
  - f_equal. rewrite Z.lnot_spec, Z.shiftl_1_l, Z.pow2_bits_eqb by lia.
    change 0x7FFFFFFF with (Z.ones 31).
    destruct (Z.eqb_spec 31 n) as [->|Hne].
    + now rewrite Z.ones_spec_high by lia.
    + now rewrite Z.ones_spec_low by lia.
  - assert (Hb : Z.testbit x n = false).
    { destruct (Z.eq_dec x 0) as [->|Hx0]; [apply Z.bits_0|].
      apply Z.bits_above_log2; [lia|].
      assert (Z.log2 x < 32) by (apply Z.log2_lt_pow2; lia). lia. }
    now rewrite Hb.
Qed.

Lemma low_nibble_range (z : Z) : 0 <= Z.land z 15 < 16.
Proof.
  change 15 with (Z.ones 4). rewrite Z.land_ones by lia.
  apply Z.mod_pos_bound. lia.
Qed.

Lemma nth_error_last (s : bytes) (d : byte) :
  s <> [] -> nth_error s (List.length s - 1) = Some (last s d).
Proof.
  induction s as [|a s IH]; intros Hs; [contradiction|].
  destruct s as [|b t]; [reflexivity|].
  replace (List.length (a :: b :: t) - 1)%nat
    with (S (List.length (b :: t) - 1)) by (simpl; lia).
  cbn [nth_error]. rewrite IH by discriminate. reflexivity.
Qed.

Lemma getitem_last (s : bytes) :
  s <> [] -> getitem s (-1) = Return [last s x00].
Proof.
  intros Hs. unfold getitem, len.
  assert (0 < List.length s)%nat by (destruct s; [contradiction | simpl; lia]).
  change (-1 <? 0) with true. cbv iota.
  destruct (Z.ltb_spec (-1 + Z.of_nat (List.length s)) 0); [lia|].
  destruct (Z.leb_spec (Z.of_nat (List.length s)) (-1 + Z.of_nat (List.length s)));
    [lia|].
  cbn [orb].
  replace (Z.to_nat (-1 + Z.of_nat (List.length s))) with (List.length s - 1)%nat
    by lia.
  now rewrite (nth_error_last s x00 Hs).
Qed.

Lemma slice_window (s : bytes) (lo : Z) :
  0 <= lo -> lo + 4 <= len s ->
  slice s lo (lo + 4) = firstn 4 (skipn (Z.to_nat lo) s).
Proof.
  intros H0 H1. unfold slice, clamp_index.
  destruct (Z.ltb_spec lo 0); [lia|].
  destruct (Z.ltb_spec (lo + 4) 0); [lia|].
  rewrite !Z.min_l by lia.
  replace (Z.to_nat (lo + 4 - lo)) with 4%nat by lia. reflexivity.
Qed.

Lemma window_nth (s : bytes) (o : nat) (d : byte) :
  (o + 4 <= List.length s)%nat ->
  firstn 4 (skipn o s)
  = [nth o s d; nth (o + 1) s d; nth (o + 2) s d; nth (o + 3) s d].
Proof.
  revert s. induction o as [|o IH]; intros s Hs.
  - destruct s as [|a [|b [|c [|e t]]]]; simpl in Hs; try lia. reflexivity.
  - destruct s as [|a s]; simpl in Hs; [lia|].
    cbn [skipn Nat.add nth]. apply IH. lia.
Qed.

Lemma from_be_4 (a b c d : byte) :
  Struct.from_be [a; b; c; d]
  = ord a * 2 ^ 24 + ord b * 2 ^ 16 + ord c * 2 ^ 8 + ord d.
Proof.
  unfold Struct.from_be. cbn [fold_left]. ring.
Qed.

(** What [truncate] computes on a digest that is long enough for every
    offset: no step raises, and the code is read at the offset. *)
Lemma truncate_long_digest (digest : bytes) (digits : Z) :
  19 <= len digest ->
  truncate digest digits
  = mod_ (Z.land
            (Struct.from_be
               (firstn 4 (skipn (Z.to_nat (Z.land (ord (last digest x00)) 15))
                                digest)))
            0x7FFFFFFF)
         (pow 10 digits).
Proof.
  intros Hlen. unfold truncate.
  assert (Hne : digest <> []) by (intros ->; cbn in Hlen; lia).
  rewrite (getitem_last digest Hne). cbn [bind Struct.unpack_B].
  pose proof (low_nibble_range (ord (last digest x00))) as Ho.
  set (o := Z.land (ord (last digest x00)) 15) in *.
  rewrite slice_window by lia.
  unfold Struct.unpack_I.
  assert (Hl : List.length (firstn 4 (skipn (Z.to_nat o) digest)) = 4%nat).
  { rewrite length_firstn, length_skipn. unfold len in Hlen. lia. }
  rewrite Hl. cbn [Nat.eqb bind].
  rewrite land_clear_bit31; [reflexivity|].
  pose proof (from_be_range (firstn 4 (skipn (Z.to_nat o) digest))) as Hr.
  rewrite Hl in Hr. exact Hr.
Qed.

Lemma truncate_range (digest : bytes) (digits code : Z) :
  0 < digits -> truncate digest digits = Return code ->
  0 <= code < 10 ^ digits.
Proof.
  intros Hd. unfold truncate.
  destruct (getitem digest (-1)) as [l| |]; cbn [bind]; try discriminate.
  destruct (Struct.unpack_B l) as [b| |]; cbn [bind]; try discriminate.
  destruct (Struct.unpack_I _) as [c| |]; cbn [bind]; try discriminate.
  unfold pow, mod_. destruct (Z.ltb_spec digits 0); [lia|].
  assert (0 < 10 ^ digits) by (apply Z.pow_pos_nonneg; lia).
  destruct (Z.eqb_spec (10 ^ digits) 0); [lia|].
  intros [= <-]. apply Z.mod_pos_bound. lia.
Qed.

(** C2: on every 20-byte digest and for every positive digit count,
    [truncate] returns the dynamic truncation of RFC 4226 (offset from the
    low nibble of the last byte, four bytes read big-endian, top bit
    cleared with 0x7FFFFFFF, reduced modulo 10^digits), and that value lies
    in [0, 10^digits). *)
Theorem truncate_is_dynamic_truncation (digest : bytes) (digits : Z) :
  List.length digest = 20%nat -> 0 < digits ->
  truncate digest digits = Return (Rfc4226.dynamic_truncation digest digits)
  /\ 0 <= Rfc4226.dynamic_truncation digest digits < 10 ^ digits.
Proof.
  intros Hlen Hd.
  assert (Heq : truncate digest digits
                = Return (Rfc4226.dynamic_truncation digest digits)).
  { rewrite truncate_long_digest by (unfold len; lia).
    unfold Rfc4226.dynamic_truncation.
    pose proof (low_nibble_range (ord (last digest x00))) as Ho.
    change 0x0F with 15.
    set (o := Z.to_nat (Z.land (ord (last digest x00)) 15)).
    rewrite (window_nth digest o x00) by lia.
    rewrite from_be_4.
    unfold pow, mod_. destruct (Z.ltb_spec digits 0); [lia|].
    assert (0 < 10 ^ digits) by (apply Z.pow_pos_nonneg; lia).
    destruct (Z.eqb_spec (10 ^ digits) 0); [lia | reflexivity]. }
  split; [exact Heq|].
  exact (truncate_range digest digits _ Hd Heq).
Qed.

Lemma truncate_is_dynamic_truncation_witness :
  truncate (SHA1.digest []) 6
  = Return (Rfc4226.dynamic_truncation (SHA1.digest []) 6)
  /\ 0 <= Rfc4226.dynamic_truncation (SHA1.digest []) 6 < 10 ^ 6.
Proof.
  apply (truncate_is_dynamic_truncation (SHA1.digest []) 6);
    [vm_compute; reflexivity | lia].
Defined.

(** C5 (as amended): [truncate] does not check [digits]; with digits = 0
    the modulus is 10^0 = 1, and on every 20-byte digest the call returns
    the code 0 instead of raising an error. *)
Theorem truncate_zero_digits (digest : bytes) :
  List.length digest = 20%nat -> truncate digest 0 = Return 0.
Proof.
  intros Hlen. rewrite truncate_long_digest by (unfold len; lia).
  cbn [pow Z.ltb Z.compare Z.pow Z.pow_pos Pos.iter mod_ Z.eqb].
  now rewrite Z.mod_1_r.
Qed.

Lemma truncate_zero_digits_witness : truncate (repeat x00 20) 0 = Return 0.
Proof.
  apply (truncate_zero_digits (repeat x00 20)). reflexivity.
Defined.

(** C5, as stated, fails: digits = 0 is non-positive, yet [truncate]
    returns a value on the 20-byte digest of zero bytes. *)
Lemma zero_digits_not_rejected :
  0 <= 0 /\ List.length (repeat x00 20) = 20%nat
  /\ ~ (exists e, truncate (repeat x00 20) 0 = Raise e).
Proof.
  split; [lia|]. split; [reflexivity|].
  intros [e He]. vm_compute in He. discriminate He.
Qed.

(** ** SHA-1 and HMAC-SHA-1 *)

(** The fuel of [chunks] is enough: the chunks cover the whole input. *)
Lemma chunks_concat (n fuel : nat) (s : bytes) :
  (0 < n)%nat -> (List.length s <= fuel)%nat ->
  List.concat (SHA1.chunks fuel n s) = s.
Proof.
  intros Hn. revert s. induction fuel as [|fuel IH]; intros s Hl.
  - destruct s; [reflexivity | simpl in Hl; lia].
  - destruct s as [|b s]; [reflexivity|].
    cbn [SHA1.chunks List.concat]. rewrite IH; [apply firstn_skipn|].
    rewrite length_skipn. cbn [List.length] in *. lia.
Qed.

(** The padded message is a whole number of 64-byte blocks. *)
Lemma pad_length (msg : bytes) : (len (SHA1.pad msg)) mod 64 = 0.
Proof.
  unfold SHA1.pad, len.
  rewrite !length_app, repeat_length, to_be_length. cbn [List.length].
  pose proof (Z.mod_pos_bound (55 - Z.of_nat (List.length msg)) 64 ltac:(lia)).
  rewrite !Nat2Z.inj_add, Z2Nat.id by lia.
  set (l := Z.of_nat (List.length msg)).
  replace (l + (Z.of_nat 1 + ((55 - l) mod 64 + Z.of_nat 8)))
    with ((55 - l) mod 64 + (l + 9)) by lia.
  rewrite Zplus_mod_idemp_l.
  replace (55 - l + (l + 9)) with (1 * 64) by lia.
  apply Z_mod_mult.
Qed.

Lemma sha1_digest_length (msg : bytes) : List.length (SHA1.digest msg) = 20%nat.
Proof.
  unfold SHA1.digest, SHA1.output.
  rewrite !length_app, !to_be_length. reflexivity.
Qed.

Lemma hmac_sha1_length (key msg : bytes) :
  List.length (Hmac.new_digest key msg Hmac.sha1) = 20%nat.
Proof.
  unfold Hmac.new_digest. cbn [Hmac.hash_digest Hmac.sha1].
  apply sha1_digest_length.
Qed.

Lemma last_of_20 (s : bytes) (d : byte) :
  List.length s = 20%nat -> last s d = nth 19 s d.
Proof.
  intros Hlen.
  assert (Hne : s <> []) by (intros ->; discriminate Hlen).
  pose proof (nth_error_last s d Hne) as H. rewrite Hlen in H.
  cbn [Nat.sub] in H. apply (nth_error_nth s 19 d) in H. now rewrite H.
Qed.

(** ** Packing the counter in [hmac_digest] *)

(** C6: an integer message is packed into exactly 8 bytes whose unsigned
    big-endian reading is the integer, and the HMAC is taken over these
    bytes; an integer below 0 or from 2^64 on makes [hmac_digest] raise
    (struct.error) instead of being reduced to 8 bytes. *)
Theorem hmac_digest_integer_message
  (key : bytes) (n : Z) (hashfunc : Hmac.hashfunc) :
  (0 <= n < 2 ^ 64 ->
   exists encoded,
     List.length encoded = 8%nat
     /\ Struct.from_be encoded = n
     /\ hmac_digest key (MInt n) hashfunc
        = hmac_digest key (MBytes encoded) hashfunc
     /\ hmac_digest key (MInt n) hashfunc
        = Return (Hmac.new_digest key encoded hashfunc))
  /\ (n < 0 \/ 2 ^ 64 <= n ->
      hmac_digest key (MInt n) hashfunc = Raise StructError).
Proof.
  split.
  - intros Hn. exists (Struct.to_be 8 n).
    split; [apply to_be_length|]. split.
    + rewrite from_be_to_be. apply Z.mod_small.
      change (256 ^ Z.of_nat 8) with (2 ^ 64). exact Hn.
    + unfold hmac_digest. rewrite pack_Q_in_range by exact Hn.
      split; reflexivity.
  - intros Hn. unfold hmac_digest.
    rewrite pack_Q_out_of_range by exact Hn. reflexivity.
Qed.

Lemma hmac_digest_integer_message_witness :
  (exists encoded,
     List.length encoded = 8%nat
     /\ Struct.from_be encoded = 258
     /\ hmac_digest rfc_key (MInt 258) Hmac.sha1
        = hmac_digest rfc_key (MBytes encoded) Hmac.sha1
     /\ hmac_digest rfc_key (MInt 258) Hmac.sha1
        = Return (Hmac.new_digest rfc_key encoded Hmac.sha1))
  /\ hmac_digest rfc_key (MInt (-1)) Hmac.sha1 = Raise StructError
  /\ hmac_digest rfc_key (MInt (2 ^ 64)) Hmac.sha1 = Raise StructError.
Proof.
  split; [|split].
  - apply (proj1 (hmac_digest_integer_message rfc_key 258 Hmac.sha1)). lia.
  - apply (proj2 (hmac_digest_integer_message rfc_key (-1) Hmac.sha1)). lia.
  - apply (proj2 (hmac_digest_integer_message rfc_key (2 ^ 64) Hmac.sha1)). lia.
Defined.

(** ** HOTP and TOTP *)

Lemma hotp_in_range (key : bytes) (counter : Z) :
  0 <= counter < 2 ^ 64 ->
  hotp key (MInt counter) Hmac.sha1
  = truncate (Hmac.new_digest key (Struct.to_be 8 counter) Hmac.sha1)
             DEFAULT_DIGITS.
Proof.
  intros Hc. unfold hotp, hmac_digest.
  rewrite pack_Q_in_range by exact Hc. reflexivity.
Qed.

Lemma hotp_out_of_range (key : bytes) (counter : Z) (h : Hmac.hashfunc) :
  counter < 0 \/ 2 ^ 64 <= counter ->
  hotp key (MInt counter) h = Raise StructError.
Proof.
  intros Hc. unfold hotp, hmac_digest.
  rewrite pack_Q_out_of_range by exact Hc. reflexivity.
Qed.

(** C7 (as amended): for every key and every counter in [0, 2^64), [hotp]
    (with SHA-1) returns a code and raises nothing; and on a 20-byte digest
    whose last byte has low nibble 15, [truncate] stays inside the digest
    and reads exactly the bytes at indices 15 to 18. *)
Theorem hotp_returns_on_valid_input (key : bytes) (counter : Z) :
  0 <= counter < 2 ^ 64 ->
  (exists code, hotp key (MInt counter) Hmac.sha1 = Return code)
  /\ (forall digest : bytes,
        List.length digest = 20%nat ->
        Z.land (ord (nth 19 digest x00)) 15 = 15 ->
        truncate digest DEFAULT_DIGITS
        = Return (Z.land (Struct.from_be [nth 15 digest x00; nth 16 digest x00;
                                          nth 17 digest x00; nth 18 digest x00])
                         0x7FFFFFFF mod 10 ^ 6)).
Proof.
  intros Hc. split.
  - rewrite hotp_in_range by exact Hc.
    set (d := Hmac.new_digest key (Struct.to_be 8 counter) Hmac.sha1).
    assert (Hd : List.length d = 20%nat) by apply hmac_sha1_length.
    rewrite truncate_long_digest by (unfold len; lia).
    eexists. reflexivity.
  - intros digest Hlen Hnib.
    rewrite truncate_long_digest by (unfold len; lia).
    rewrite (last_of_20 digest x00 Hlen), Hnib.
    rewrite (window_nth digest (Z.to_nat 15) x00) by (rewrite Hlen; simpl; lia).
    reflexivity.
Qed.

Lemma hotp_returns_on_valid_input_witness :
  (exists code, hotp rfc_key (MInt (2 ^ 64 - 1)) Hmac.sha1 = Return code)
  /\ (forall digest : bytes,
        List.length digest = 20%nat ->
        Z.land (ord (nth 19 digest x00)) 15 = 15 ->
        truncate digest DEFAULT_DIGITS
        = Return (Z.land (Struct.from_be [nth 15 digest x00; nth 16 digest x00;
                                          nth 17 digest x00; nth 18 digest x00])
                         0x7FFFFFFF mod 10 ^ 6)).
Proof.
  apply (hotp_returns_on_valid_input rfc_key (2 ^ 64 - 1)). lia.
Defined.

(** C7, as stated, fails on the digest [offset15_digest]: its last byte
    has low nibble 15, and the code [truncate] returns comes from the bytes
    at indices 15 to 18, not from the bytes at indices 16 to 19. *)
Lemma truncate_offset15_window :
  List.length offset15_digest = 20%nat
  /\ Z.land (ord (nth 19 offset15_digest x00)) 15 = 15
  /\ truncate offset15_digest DEFAULT_DIGITS = Return 777216
  /\ truncate offset15_digest DEFAULT_DIGITS
     <> Return (Z.land (Struct.from_be
                          [nth 16 offset15_digest x00; nth 17 offset15_digest x00;
                           nth 18 offset15_digest x00; nth 19 offset15_digest x00])
                       0x7FFFFFFF mod 10 ^ 6).
Proof.
  repeat split; try (vm_compute; reflexivity).
  vm_compute. discriminate.
Qed.

(** C9: [hotp] always truncates with the default of 6 digits, whatever the
    key, the counter and the hash: a returned code is the 6-digit
    truncation of the digest and lies in [0, 10^6); the same holds for
    [totp], which only calls [hotp]. *)
Theorem hotp_totp_six_digits :
  (forall (key : bytes) (counter : message) (hashfunc : Hmac.hashfunc) (code : Z),
      hotp key counter hashfunc = Return code ->
      (exists digest,
          hmac_digest key counter hashfunc = Return digest
          /\ truncate digest 6 = Return code)
      /\ 0 <= code < 10 ^ 6)
  /\ (forall (clock : Z) (key : bytes) (current : option Z) (epoch step code : Z),
        totp clock key current epoch step = Return code ->
        (exists counter,
            time_steps clock current epoch step = Return counter
            /\ hotp key (MInt counter) Hmac.sha1 = Return code)
        /\ 0 <= code < 10 ^ 6).
Proof.
  assert (Hhotp : forall key counter hashfunc code,
             hotp key counter hashfunc = Return code ->
             (exists digest,
                 hmac_digest key counter hashfunc = Return digest
                 /\ truncate digest 6 = Return code)
             /\ 0 <= code < 10 ^ 6).
  { intros key counter hashfunc code H. unfold hotp in H.
    destruct (hmac_digest key counter hashfunc) as [d| |];
      cbn [bind] in H; try discriminate.
    split; [exists d; split; [reflexivity | exact H]|].
    apply (truncate_range d DEFAULT_DIGITS code); [reflexivity | exact H]. }
  split; [exact Hhotp|].
  intros clock key current epoch step code H. unfold totp in H.
  destruct (time_steps clock current epoch step) as [q| |];
    cbn [bind] in H; try discriminate.
  split; [exists q; split; [reflexivity | exact H]|].
  exact (proj2 (Hhotp key (MInt q) Hmac.sha1 code H)).
Qed.

Lemma hotp_totp_six_digits_witness :
  0 <= 287082 < 10 ^ 6 /\ 0 <= 287082 < 10 ^ 6.
Proof.
  split.
  - apply (proj1 hotp_totp_six_digits rfc_key (MInt 1) Hmac.sha1 287082).
    vm_compute. reflexivity.
  - apply (proj2 hotp_totp_six_digits 0 rfc_key (Some 59) 0 30 287082).
    vm_compute. reflexivity.
Defined.

(** C10: with a positive step and a current time at least one full step
    before the epoch, [time_steps] returns a negative counter and [totp]
    raises: packing that counter as an unsigned 8-byte integer fails. *)
Theorem totp_before_epoch_raises
  (clock : Z) (key : bytes) (current epoch step : Z) :
  0 < step -> current <= epoch - step ->
  (exists counter,
      time_steps clock (Some current) epoch step = Return counter
      /\ counter < 0
      /\ hmac_digest key (MInt counter) Hmac.sha1 = Raise StructError)
  /\ totp clock key (Some current) epoch step = Raise StructError.
Proof.
  intros Hs Hc.
  assert (Hq : (current - epoch) / step < 0).
  { apply Z.div_lt_upper_bound; lia. }
  split.
  - exists ((current - epoch) / step).
    rewrite time_steps_value by lia.
    split; [reflexivity|]. split; [exact Hq|].
    unfold hmac_digest. rewrite pack_Q_out_of_range by lia. reflexivity.
  - unfold totp. rewrite time_steps_value by lia. cbn [bind].
    apply hotp_out_of_range. lia.
Qed.

Lemma totp_before_epoch_raises_witness :
  (exists counter,
      time_steps 0 (Some 70) 100 30 = Return counter
      /\ counter < 0
      /\ hmac_digest rfc_key (MInt counter) Hmac.sha1 = Raise StructError)
  /\ totp 0 rfc_key (Some 70) 100 30 = Raise StructError.
Proof.
  apply (totp_before_epoch_raises 0 rfc_key 70 100 30); lia.
Defined.

(** ** Steps that are not positive *)

Lemma time_steps_any (clock : Z) (current : option Z) (epoch step : Z) :
  step <> 0 ->
  time_steps clock current epoch step
  = Return ((match current with Some c => c | None => clock end - epoch) / step).
Proof.
  intros Hs. unfold time_steps, floordiv, current_timestamp_utc.
  destruct (Z.eqb_spec step 0); [contradiction|].
  destruct current; reflexivity.
Qed.

(** C4 (as amended): with step = 0 the division in [time_steps] raises
    ZeroDivisionError, and so does [totp]; a negative step is not checked:
    [time_steps] returns the floor of (current - epoch) / step, and [totp]
    goes on to [hotp] with that counter. *)
Theorem step_not_positive
  (clock : Z) (key : bytes) (current : option Z) (epoch step : Z) :
  step <= 0 ->
  (step = 0 ->
   time_steps clock current epoch step = Raise ZeroDivisionError
   /\ totp clock key current epoch step = Raise ZeroDivisionError)
  /\ (step < 0 ->
      exists q,
        let t := match current with Some c => c | None => clock end in
        time_steps clock current epoch step = Return q
        /\ step * (q + 1) < t - epoch <= step * q
        /\ totp clock key current epoch step = hotp key (MInt q) Hmac.sha1).
Proof.
  intros Hs. split.
  - intros ->. split; [apply time_steps_zero|].
    unfold totp. rewrite time_steps_zero. reflexivity.
  - intros Hneg.
    exists ((match current with Some c => c | None => clock end - epoch) / step).
    cbv zeta. rewrite time_steps_any by lia.
    split; [reflexivity|]. split.
    + Z.to_euclidean_division_equations. nia.
    + unfold totp. rewrite time_steps_any by lia. reflexivity.
Qed.

Lemma step_not_positive_witness :
  (time_steps 0 (Some 59) 0 0 = Raise ZeroDivisionError
   /\ totp 0 rfc_key (Some 59) 0 0 = Raise ZeroDivisionError)
  /\ (exists q,
        let t := 59 in
        time_steps 0 (Some 59) 0 (-30) = Return q
        /\ -30 * (q + 1) < t - 0 <= -30 * q
        /\ totp 0 rfc_key (Some 59) 0 (-30) = hotp rfc_key (MInt q) Hmac.sha1).
Proof.
  split.
  - apply (proj1 (step_not_positive 0 rfc_key (Some 59) 0 0 ltac:(lia))).
    reflexivity.
  - apply (proj2 (step_not_positive 0 rfc_key (Some 59) 0 (-30) ltac:(lia))).
    lia.
Defined.

(** C4, as stated, fails: the step -30 is non-positive, yet [time_steps]
    returns the counter 2 for the time -60, and [totp] returns a code. *)
Lemma negative_step_returns :
  -30 <= 0
  /\ time_steps 0 (Some (-60)) 0 (-30) = Return 2
  /\ totp 0 rfc_key (Some (-60)) 0 (-30) = Return 359152.
Proof.
  split; [lia|]. split; vm_compute; reflexivity.
Qed.

(** ** Base32 *)

Lemma chr_mod (z : Z) : chr (z mod 256) = chr z.
Proof.
  unfold chr. now rewrite Z.mod_mod by lia.
Qed.

Lemma to_be_from_be_above (s : bytes) (hi : Z) :
  Struct.to_be (List.length s)
               (hi * 256 ^ Z.of_nat (List.length s) + Struct.from_be s) = s.
Proof.
  revert hi. induction s as [|b s IH]; intros hi; [reflexivity|].
  cbn [List.length Struct.to_be]. rewrite from_be_cons.
  pose proof (from_be_range s) as Hr. pose proof (ord_range b) as Hb.
  set (k := Z.of_nat (List.length s)) in *.
  assert (Hp : 0 < 256 ^ k) by (apply Z.pow_pos_nonneg; lia).
  replace (hi * 256 ^ Z.of_nat (S (List.length s)) + (ord b * 256 ^ k + Struct.from_be s))
    with ((hi * 256 + ord b) * 256 ^ k + Struct.from_be s)
    by (rewrite Nat2Z.inj_succ, Z.pow_succ_r by lia; fold k; ring).
  f_equal; [|apply IH].
  rewrite Z.shiftr_div_pow2 by lia.
  replace (2 ^ (8 * k)) with (256 ^ k)
    by (rewrite Z.pow_mul_r by lia; reflexivity).
  rewrite Z.add_comm, Z.div_add by lia.
  rewrite Z.div_small by lia. cbn [Z.add].
  rewrite <- chr_mod, Z.add_comm, Z.mod_add by lia.
  rewrite Z.mod_small by lia. apply chr_ord.
Qed.

Lemma to_be_from_be (s : bytes) :
  Struct.to_be (List.length s) (Struct.from_be s) = s.
Proof.
  exact (to_be_from_be_above s 0).
Qed.

Lemma quintet_split (n k lo hi : Z) :
  0 <= k -> lo = 2 ^ k -> hi = 2 ^ (k + 5) ->
  n mod hi = n mod lo + lo * Z.land (Z.shiftr n k) 31.
Proof.
  intros Hk -> ->. rewrite Z.shiftr_div_pow2 by lia.
  change 31 with (Z.ones 5). rewrite Z.land_ones by lia.
  rewrite Z.pow_add_r by lia. apply Z.rem_mul_r; [|lia].
  apply Z.pow_nonzero; lia.
Qed.

Lemma quintet_range (n k : Z) : 0 <= Z.land (Z.shiftr n k) 31 < 32.
Proof.
  change 31 with (Z.ones 5). rewrite Z.land_ones by lia.
  apply Z.mod_pos_bound. lia.
Qed.

Lemma quintets_range (n : Z) : Forall (fun v => 0 <= v < 32) (quintets n).
Proof.
  unfold quintets. cbn [map]. repeat constructor; apply quintet_range.
Qed.

Ltac quintet_facts n :=
  pose proof (quintet_split n 0 1 32 ltac:(lia) eq_refl eq_refl);
  pose proof (quintet_split n 5 32 1024 ltac:(lia) eq_refl eq_refl);
  pose proof (quintet_split n 10 1024 32768 ltac:(lia) eq_refl eq_refl);
  pose proof (quintet_split n 15 32768 1048576 ltac:(lia) eq_refl eq_refl);
  pose proof (quintet_split n 20 1048576 33554432 ltac:(lia) eq_refl eq_refl);
  pose proof (quintet_split n 25 33554432 1073741824 ltac:(lia) eq_refl eq_refl);
  pose proof (quintet_split n 30 1073741824 34359738368 ltac:(lia) eq_refl eq_refl);
  pose proof (quintet_split n 35 34359738368 1099511627776
                            ltac:(lia) eq_refl eq_refl);
  pose proof (quintet_range n 0); pose proof (quintet_range n 5);
  pose proof (quintet_range n 10); pose proof (quintet_range n 15);
  pose proof (quintet_range n 20); pose proof (quintet_range n 25);
  pose proof (quintet_range n 30); pose proof (quintet_range n 35);
  pose proof (Z.mod_1_r n).

(** The eight quintets of a 40-bit number give the number back; when the
    number is a multiple of [32^p], its last [p] quintets are zero. *)
Lemma of_quintets_padded (n : Z) (p : nat) :
  0 <= n < 2 ^ 40 -> (p <= 8)%nat -> n mod 2 ^ (5 * Z.of_nat p) = 0 ->
  of_quintets (firstn (8 - p) (quintets n) ++ repeat 0 p) = n.
Proof.
  intros Hn Hp Hm.
  assert (Hs : n mod 1099511627776 = n) by (apply Z.mod_small; exact Hn).
  do 9 (destruct p as [|p]; [
    unfold quintets, of_quintets;
    cbn [Nat.sub firstn map repeat app fold_left];
    cbn [Z.mul Pos.mul Pos.add Z.of_nat Pos.of_succ_nat Pos.succ
         Z.pow Z.pow_pos Pos.iter] in Hm;
    quintet_facts n; lia |]).
  lia.
Qed.

Lemma b32char_value (v : Z) :
  0 <= v < 32 ->
  b32value (b32char v) = Some v /\ Byte.eqb (b32char v) pad_char = false.
Proof.
  intros Hv.
  assert (exists k, (k < 32)%nat /\ v = Z.of_nat k) as (k & Hk & ->)
    by (exists (Z.to_nat v); lia).
  do 32 (destruct k as [|k]; [split; vm_compute; reflexivity|]). lia.
Qed.

Lemma values_map (vs : list Z) :
  Forall (fun v => 0 <= v < 32) vs -> values (map b32char vs) = Some vs.
Proof.
  induction 1 as [|v vs Hv _ IH]; [reflexivity|].
  cbn [map values]. rewrite (proj1 (b32char_value v Hv)), IH. reflexivity.
Qed.

Lemma strip_pad_map (vs : list Z) (p : nat) :
  Forall (fun v => 0 <= v < 32) vs ->
  strip_pad (map b32char vs ++ repeat pad_char p) = Some (map b32char vs, p).
Proof.
  induction 1 as [|v vs Hv _ IH].
  - destruct p as [|p]; [reflexivity|].
    cbn [map app repeat strip_pad].
    change (Byte.eqb pad_char pad_char) with true. cbv iota.
    assert (Hall : forallb (Byte.eqb pad_char) (repeat pad_char p) = true).
    { induction p as [|p IHp]; [reflexivity|].
      cbn [repeat forallb]. rewrite IHp. reflexivity. }
    rewrite Hall, repeat_length. reflexivity.
  - cbn [map app strip_pad].
    rewrite (proj2 (b32char_value v Hv)), IH. reflexivity.
Qed.

Lemma Forall_firstn_range (k : nat) (vs : list Z) :
  Forall (fun v => 0 <= v < 32) vs ->
  Forall (fun v => 0 <= v < 32) (firstn k vs).
Proof.
  intros H. rewrite <- (firstn_skipn k vs) in H.
  apply Forall_app in H. exact (proj1 H).
Qed.

(** Decoding the characters of a 40-bit number whose last [p] quintets
    were replaced by padding. *)
Lemma decode_group_padded (n : Z) (p : nat) :
  0 <= n < 2 ^ 40 -> (p <= 8)%nat -> n mod 2 ^ (5 * Z.of_nat p) = 0 ->
  decode_group (firstn (8 - p) (map b32char (quintets n)) ++ repeat pad_char p)
  = match p with
    | 0%nat => Some (Struct.to_be 5 n, false)
    | 1%nat => Some (firstn 4 (Struct.to_be 5 n), true)
    | 3%nat => Some (firstn 3 (Struct.to_be 5 n), true)
    | 4%nat => Some (firstn 2 (Struct.to_be 5 n), true)
    | 6%nat => Some (firstn 1 (Struct.to_be 5 n), true)
    | _ => None
    end.
Proof.
  intros Hn Hp Hm. unfold decode_group.
  rewrite firstn_map.
  rewrite strip_pad_map by (apply Forall_firstn_range, quintets_range).
  rewrite values_map by (apply Forall_firstn_range, quintets_range).
  rewrite of_quintets_padded by assumption. reflexivity.
Qed.

Lemma quantum_range (q : bytes) :
  List.length q = 5%nat -> 0 <= Struct.from_be q < 2 ^ 40.
Proof.
  intros Hq. pose proof (from_be_range q) as H. rewrite Hq in H. exact H.
Qed.

Lemma from_be_5 (a b c d e : byte) :
  Struct.from_be [a; b; c; d; e]
  = ord a * 2 ^ 32 + ord b * 2 ^ 24 + ord c * 2 ^ 16 + ord d * 2 ^ 8 + ord e.
Proof.
  unfold Struct.from_be. cbn [fold_left]. ring.
Qed.

Lemma decode_quantum_5 (q : bytes) :
  List.length q = 5%nat -> decode_group (encode_quantum q) = Some (q, false).
Proof.
  intros Hq. unfold encode_quantum.
  pose proof (decode_group_padded (Struct.from_be q) 0 (quantum_range q Hq)
                ltac:(lia) (Z.mod_1_r _)) as H.
  cbn [Nat.sub repeat] in H. rewrite app_nil_r in H.
  change (firstn 8 (map b32char (quintets (Struct.from_be q))))
    with (map b32char (quintets (Struct.from_be q))) in H.
  rewrite H. rewrite <- Hq at 1. rewrite to_be_from_be. reflexivity.
Qed.

Lemma decode_quantum_partial (q : bytes) (p : nat) (m : Z) :
  List.length q = 5%nat -> (p <= 8)%nat ->
  Struct.from_be q = m * 2 ^ (5 * Z.of_nat p) ->
  decode_group (firstn (8 - p) (encode_quantum q) ++ repeat pad_char p)
  = match p with
    | 0%nat => Some (q, false)
    | 1%nat => Some (firstn 4 q, true)
    | 3%nat => Some (firstn 3 q, true)
    | 4%nat => Some (firstn 2 q, true)
    | 6%nat => Some (firstn 1 q, true)
    | _ => None
    end.
Proof.
  intros Hq Hp Hm. unfold encode_quantum.
  rewrite decode_group_padded;
    [| exact (quantum_range q Hq) | exact Hp
     | rewrite Hm; apply Z_mod_mult ].
  assert (Hto : Struct.to_be 5 (Struct.from_be q) = q)
    by (rewrite <- Hq; apply to_be_from_be).
  rewrite Hto. reflexivity.
Qed.

Lemma b32decode_group (g rest : bytes) :
  List.length g = 8%nat ->
  b32decode (g ++ rest)
  = match decode_group g with
    | None => None
    | Some (q, padded) =>
        if padded then match rest with [] => Some q | _ => None end
        else match b32decode rest with
             | Some r => Some (q ++ r)
             | None => None
             end
    end.
Proof.
  intros Hg.
  do 9 (destruct g as [|? g]; try discriminate Hg).
  reflexivity.
Qed.

Lemma encode_quantum_length (q : bytes) : List.length (encode_quantum q) = 8%nat.
Proof. reflexivity. Qed.

Lemma b32decode_last_group (q : bytes) (p : nat) :
  List.length (firstn (8 - p) (encode_quantum q) ++ repeat pad_char p) = 8%nat ->
  b32decode (firstn (8 - p) (encode_quantum q) ++ repeat pad_char p)
  = match decode_group (firstn (8 - p) (encode_quantum q) ++ repeat pad_char p) with
    | Some (r, true) => Some r
    | Some (r, false) => Some (r ++ [])
    | None => None
    end.
Proof.
  intros Hl.
  rewrite <- (app_nil_r (firstn (8 - p) (encode_quantum q) ++ repeat pad_char p)) at 1.
  rewrite b32decode_group by exact Hl.
  destruct (decode_group _) as [[r [|]]|]; reflexivity.
Qed.

(** Base32 decoding inverts [b32encode] on every byte string. *)
Lemma b32decode_b32encode (s : bytes) : b32decode (b32encode s) = Some s.
Proof.
  assert (H : forall (n : nat) (s : bytes),
             (List.length s <= n)%nat -> b32decode (b32encode s) = Some s).
  { clear s. induction n as [|n IH]; intros s Hl.
    - destruct s; [reflexivity | simpl in Hl; lia].
    - destruct s as [|a [|b [|c [|d [|e rest]]]]].
      + reflexivity.
      + change (b32encode [a])
          with (firstn (8 - 6) (encode_quantum [a; x00; x00; x00; x00]) ++ repeat pad_char 6).
        rewrite (b32decode_last_group [a; x00; x00; x00; x00] 6) by reflexivity.
        rewrite (decode_quantum_partial _ 6 (ord a * 4)); try reflexivity; try lia.
        rewrite from_be_5. change (ord x00) with 0.
        change (2 ^ (5 * Z.of_nat 6)) with (2 ^ 30). ring.
      + change (b32encode [a; b])
          with (firstn (8 - 4) (encode_quantum [a; b; x00; x00; x00]) ++ repeat pad_char 4).
        rewrite (b32decode_last_group [a; b; x00; x00; x00] 4) by reflexivity.
        rewrite (decode_quantum_partial _ 4 (ord a * 2 ^ 12 + ord b * 2 ^ 4));
          try reflexivity; try lia.
        rewrite from_be_5. change (ord x00) with 0.
        change (2 ^ (5 * Z.of_nat 4)) with (2 ^ 20). ring.
      + change (b32encode [a; b; c])
          with (firstn (8 - 3) (encode_quantum [a; b; c; x00; x00]) ++ repeat pad_char 3).
        rewrite (b32decode_last_group [a; b; c; x00; x00] 3) by reflexivity.
        rewrite (decode_quantum_partial _ 3
                   (ord a * 2 ^ 17 + ord b * 2 ^ 9 + ord c * 2));
          try reflexivity; try lia.
        rewrite from_be_5. change (ord x00) with 0.
        change (2 ^ (5 * Z.of_nat 3)) with (2 ^ 15). ring.
      + change (b32encode [a; b; c; d])
          with (firstn (8 - 1) (encode_quantum [a; b; c; d; x00]) ++ repeat pad_char 1).
        rewrite (b32decode_last_group [a; b; c; d; x00] 1) by reflexivity.
        rewrite (decode_quantum_partial _ 1
                   (ord a * 2 ^ 27 + ord b * 2 ^ 19 + ord c * 2 ^ 11 + ord d * 2 ^ 3));
          try reflexivity; try lia.
        rewrite from_be_5. change (ord x00) with 0.
        change (2 ^ (5 * Z.of_nat 1)) with (2 ^ 5). ring.
      + change (b32encode (a :: b :: c :: d :: e :: rest))
          with (encode_quantum [a; b; c; d; e] ++ b32encode rest).
        rewrite b32decode_group by apply encode_quantum_length.
        rewrite decode_quantum_5 by reflexivity.
        rewrite IH by (simpl in Hl; lia). reflexivity. }
  apply (H (List.length s) s). lia.
Qed.

(** ** Quoting and unquoting *)

Lemma replace_quoter_space (c : byte) :
  replace " "%byte "+"%byte (quoter (bs " ") c) = plus_quoter c.
Proof. destruct c; vm_compute; reflexivity. Qed.

Lemma eqb_space_sym (c : byte) :
  Byte.eqb " "%byte c = false -> Byte.eqb c " "%byte = false.
Proof. destruct c; intros H; try reflexivity; discriminate H. Qed.

Lemma quote_plus_flat_map (s : bytes) : quote_plus s = flat_map plus_quoter s.
Proof.
  unfold quote_plus. destruct (mem " "%byte s) eqn:Hm.
  - clear Hm. unfold quote. induction s as [|c s IH]; [reflexivity|].
    cbn [flat_map]. unfold replace in *. rewrite map_app, IH.
    f_equal. apply replace_quoter_space.
  - unfold quote. induction s as [|c s IH]; [reflexivity|].
    cbn [mem existsb] in Hm. apply orb_false_iff in Hm as [Hc Hs].
    cbn [flat_map]. rewrite (IH Hs). f_equal.
    unfold plus_quoter. now rewrite (eqb_space_sym c Hc).
Qed.

Lemma unquote_plus_quoter (c : byte) (rest : bytes) :
  unquote (replace "+"%byte " "%byte (plus_quoter c ++ rest))
  = c :: unquote (replace "+"%byte " "%byte rest).
Proof. destruct c; reflexivity. Qed.

(** Form decoding inverts [quote_plus] on every byte string. *)
Lemma unquote_plus_quote_plus (s : bytes) : unquote_plus (quote_plus s) = s.
Proof.
  rewrite quote_plus_flat_map. unfold unquote_plus.
  induction s as [|c s IH]; [reflexivity|].
  cbn [flat_map]. rewrite unquote_plus_quoter.
  f_equal. exact IH.
Qed.

Lemma plus_quoter_no_delimiter (c : byte) :
  forallb (fun b => negb (delimiter b)) (plus_quoter c) = true.
Proof. destruct c; vm_compute; reflexivity. Qed.

Lemma quoter_slash_no_delimiter (c : byte) :
  forallb (fun b => negb (delimiter b)) (quoter (bs "/") c) = true.
Proof. destruct c; vm_compute; reflexivity. Qed.

Lemma flat_map_forallb (p : byte -> bool) (f : byte -> bytes) (s : bytes) :
  (forall c, forallb p (f c) = true) -> forallb p (flat_map f s) = true.
Proof.
  intros Hf. induction s as [|c s IH]; [reflexivity|].
  cbn [flat_map]. rewrite forallb_app, Hf, IH. reflexivity.
Qed.

Lemma quote_plus_no_delimiter (s : bytes) :
  forallb (fun b => negb (delimiter b)) (quote_plus s) = true.
Proof.
  rewrite quote_plus_flat_map.
  apply flat_map_forallb, plus_quoter_no_delimiter.
Qed.

Lemma quote_slash_no_delimiter (s : bytes) :
  forallb (fun b => negb (delimiter b)) (quote s (bs "/")) = true.
Proof.
  unfold quote. apply flat_map_forallb, quoter_slash_no_delimiter.
Qed.

Lemma forallb_impl (p q : byte -> bool) (s : bytes) :
  (forall c, p c = true -> q c = true) ->
  forallb p s = true -> forallb q s = true.
Proof.
  intros Hpq. induction s as [|c s IH]; [reflexivity|].
  cbn [forallb]. intros H. apply andb_true_iff in H as [Hc Hs].
  now rewrite (Hpq c Hc), (IH Hs).
Qed.

Lemma not_delimiter (d c : byte) :
  delimiter d = true -> negb (delimiter c) = true ->
  negb (Byte.eqb c d) = true.
Proof.
  intros Hd Hc. destruct (Byte.eqb c d) eqn:E; [|reflexivity].
  apply Byte.byte_dec_bl in E. subst c. rewrite Hd in Hc. discriminate Hc.
Qed.

Lemma no_delimiter_absent (d : byte) (s : bytes) :
  delimiter d = true ->
  forallb (fun b => negb (delimiter b)) s = true ->
  forallb (fun b => negb (Byte.eqb b d)) s = true.
Proof.
  intros Hd. apply forallb_impl. intros c. apply not_delimiter. exact Hd.
Qed.

(** ** Breaking, splitting and joining *)

Lemma break_skip (c : byte) (a s : bytes) :
  forallb (fun b => negb (Byte.eqb b c)) a = true ->
  break c (a ++ s) = (a ++ fst (break c s), snd (break c s)).
Proof.
  induction a as [|x a IH]; intros H.
  - cbn [app]. now destruct (break c s).
  - cbn [forallb] in H. apply andb_true_iff in H as [Hx Ha].
    cbn [app break]. apply negb_true_iff in Hx. rewrite Hx.
    rewrite (IH Ha). reflexivity.
Qed.

Lemma break_found (c : byte) (a s : bytes) :
  forallb (fun b => negb (Byte.eqb b c)) a = true ->
  break c (a ++ c :: s) = (a, Some s).
Proof.
  intros H. rewrite (break_skip c a (c :: s) H).
  cbn [break]. rewrite (Byte.byte_dec_lb eq_refl).
  cbn [fst snd]. now rewrite app_nil_r.
Qed.

Lemma break_absent (c : byte) (a : bytes) :
  forallb (fun b => negb (Byte.eqb b c)) a = true ->
  break c a = (a, None).
Proof.
  intros H. rewrite <- (app_nil_r a) at 1.
  rewrite (break_skip c a [] H). cbn [break fst snd]. now rewrite app_nil_r.
Qed.

Lemma join_cons (c : byte) (x : bytes) (y : bytes) (rest : list bytes) :
  join [c] (x :: y :: rest) = x ++ c :: join [c] (y :: rest).
Proof. reflexivity. Qed.

Lemma split_fuel_join (c : byte) (pieces : list bytes) (fuel : nat) :
  pieces <> [] ->
  Forall (fun p => forallb (fun b => negb (Byte.eqb b c)) p = true) pieces ->
  (List.length (join [c] pieces) <= fuel)%nat ->
  split_fuel fuel c (join [c] pieces) = pieces.
Proof.
  intros Hne Hall. revert fuel.
  induction Hall as [|x pieces Hx Hall IH]; [contradiction|].
  intros fuel Hf. destruct pieces as [|y rest].
  - cbn [join] in *. destruct fuel as [|fuel]; [reflexivity|].
    cbn [split_fuel]. now rewrite (break_absent c x Hx).
  - rewrite join_cons in *.
    destruct fuel as [|fuel];
      [rewrite length_app in Hf; cbn [List.length] in Hf; lia|].
    cbn [split_fuel]. rewrite (break_found c x _ Hx).
    rewrite IH; [reflexivity | discriminate |].
    rewrite length_app in Hf. cbn [List.length] in Hf.
    unfold bytes in *. lia.
Qed.

Lemma split_join (c : byte) (pieces : list bytes) :
  pieces <> [] ->
  Forall (fun p => forallb (fun b => negb (Byte.eqb b c)) p = true) pieces ->
  split c (join [c] pieces) = pieces.
Proof.
  intros Hne Hall. unfold split. apply split_fuel_join; auto.
Qed.

Lemma forallb_join (p : byte -> bool) (c : byte) (pieces : list bytes) :
  p c = true ->
  Forall (fun x => forallb p x = true) pieces ->
  forallb p (join [c] pieces) = true.
Proof.
  intros Hc Hall. induction Hall as [|x pieces Hx Hall IH]; [reflexivity|].
  destruct pieces as [|y rest]; [exact Hx|].
  rewrite join_cons, forallb_app. cbn [forallb]. rewrite Hx, Hc. exact IH.
Qed.

(** ** Reading the query of a key URI *)

Lemma encoded_pair_no_ampersand (kv : bytes * value) :
  forallb (fun b => negb (Byte.eqb b "&"%byte)) (encoded_pair kv) = true.
Proof.
  unfold encoded_pair. rewrite !forallb_app.
  rewrite !(no_delimiter_absent "&"%byte _ eq_refl (quote_plus_no_delimiter _)).
  reflexivity.
Qed.

Lemma encoded_pair_no_hash (kv : bytes * value) :
  forallb (fun b => negb (Byte.eqb b "#"%byte)) (encoded_pair kv) = true.
Proof.
  unfold encoded_pair. rewrite !forallb_app.
  rewrite !(no_delimiter_absent "#"%byte _ eq_refl (quote_plus_no_delimiter _)).
  reflexivity.
Qed.

Lemma parse_encoded_pair (kv : bytes * value) :
  parse_pair (encoded_pair kv) = (fst kv, str (snd kv)).
Proof.
  unfold parse_pair, encoded_pair.
  change (bs "=" ++ quote_plus (str (snd kv)))
    with ("="%byte :: quote_plus (str (snd kv))).
  rewrite break_found
    by exact (no_delimiter_absent "="%byte _ eq_refl (quote_plus_no_delimiter _)).
  now rewrite !unquote_plus_quote_plus.
Qed.

Lemma encoded_pair_not_empty (kv : bytes * value) :
  negb (Nat.eqb (List.length (encoded_pair kv)) 0) = true.
Proof.
  unfold encoded_pair. rewrite length_app.
  change (bs "=" ++ quote_plus (str (snd kv)))
    with ("="%byte :: quote_plus (str (snd kv))).
  cbn [List.length]. rewrite Nat.add_succ_r. reflexivity.
Qed.

(** The pairs read from the output of [urlencode] are the items that
    were encoded, with their values turned into strings. *)
Lemma parse_qsl_urlencode (query : list (bytes * value)) :
  parse_qsl (urlencode query) = map (fun kv => (fst kv, str (snd kv))) query.
Proof.
  unfold parse_qsl, urlencode.
  destruct query as [|kv query]; [reflexivity|].
  change (bs "&") with ["&"%byte].
  rewrite split_join.
  - set (l := kv :: query). clearbody l.
    induction l as [|x l IH]; [reflexivity|].
    cbn [map filter]. rewrite encoded_pair_not_empty.
    cbn [map]. rewrite parse_encoded_pair, IH. reflexivity.
  - discriminate.
  - apply Forall_forall. intros x Hx. apply in_map_iff in Hx as (y & <- & _).
    apply encoded_pair_no_ampersand.
Qed.

Lemma urlencode_no_hash (query : list (bytes * value)) :
  forallb (fun b => negb (Byte.eqb b "#"%byte)) (urlencode query) = true.
Proof.
  unfold urlencode. change (bs "&") with ["&"%byte].
  apply forallb_join; [reflexivity|].
  apply Forall_forall. intros x Hx. apply in_map_iff in Hx as (y & <- & _).
  apply (encoded_pair_no_hash y).
Qed.

Lemma bytes_eqb_refl (a : bytes) : bytes_eqb a a = true.
Proof.
  unfold bytes_eqb. destruct (list_eq_dec Byte.byte_eq_dec a a); congruence.
Qed.

Lemma bytes_eqb_eq (a b : bytes) : bytes_eqb a b = true -> a = b.
Proof.
  unfold bytes_eqb. destruct (list_eq_dec Byte.byte_eq_dec a b); congruence.
Qed.

Lemma lookup_in (name v : bytes) (l : list (bytes * bytes)) :
  NoDup (map fst l) -> In (name, v) l -> lookup name l = Some v.
Proof.
  induction l as [|[k w] l IH]; intros Hnd Hin; [contradiction|].
  cbn [map fst] in Hnd. inversion Hnd as [|? ? Hk Hnd']; subst.
  cbn [lookup]. destruct Hin as [Heq|Hin].
  - inversion Heq; subst. now rewrite bytes_eqb_refl.
  - destruct (bytes_eqb k name) eqn:E; [|exact (IH Hnd' Hin)].
    apply bytes_eqb_eq in E. subst k. exfalso. apply Hk.
    apply in_map_iff. exists (name, v). split; [reflexivity | exact Hin].
Qed.

Lemma query_of_uri (path q : bytes) :
  forallb (fun b => negb (Byte.eqb b "?"%byte)) path = true ->
  forallb (fun b => negb (Byte.eqb b "#"%byte)) q = true ->
  query_of (path ++ bs "?" ++ q) = Some q.
Proof.
  intros Hp Hq. unfold query_of.
  change (bs "?" ++ q) with ("?"%byte :: q).
  rewrite (break_found _ _ _ Hp). cbn [snd].
  rewrite (break_absent _ _ Hq). reflexivity.
Qed.

(** C8: whatever the order in which the dictionary of parameters yields
    its items, the [secret] parameter of the URI that [key_uri] builds,
    once extracted from the query and Base32-decoded, is the key. *)
Theorem key_uri_secret_roundtrip
  (dict_items : list (bytes * value) -> list (bytes * value))
  (key issuer accountname : bytes) (digits step : value) :
  (forall d, Permutation d (dict_items d)) ->
  secret_of_uri (key_uri dict_items key issuer accountname digits step)
  = Some key.
Proof.
  intros Hperm. unfold key_uri, secret_of_uri.
  set (d := [ (bs "secret", VStr (b32encode key)); (bs "issuer", VStr issuer);
              (bs "algorithm", VStr (bs "SHA1")); (bs "digits", digits);
              (bs "period", step) ]).
  pose proof (Hperm d) as Hd. set (params := dict_items d) in *.
  rewrite !app_assoc. rewrite <- (app_assoc _ (bs "?") _).
  rewrite query_of_uri.
  - rewrite parse_qsl_urlencode.
    rewrite (lookup_in (bs "secret") (b32encode key)).
    + apply b32decode_b32encode.
    + rewrite map_map. cbn [fst].
      apply (Permutation_NoDup (Permutation_map fst Hd)).
      subst d. cbn [map fst].
      repeat (constructor; [cbn [In]; intros H;
                            repeat (destruct H as [H|H]; [discriminate H|]);
                            exact H|]).
      constructor.
    + apply in_map_iff. exists (bs "secret", VStr (b32encode key)).
      split; [reflexivity|].
      apply (Permutation_in _ Hd). left. reflexivity.
  - rewrite !forallb_app.
    rewrite !(no_delimiter_absent "?"%byte _ eq_refl (quote_slash_no_delimiter _)).
    reflexivity.
  - apply urlencode_no_hash.
Qed.

Lemma key_uri_secret_roundtrip_witness :
  secret_of_uri
    (key_uri (@rev (bytes * value)) rfc_key (bs "Example Co") (bs "alice@example.org")
             (VInt 6) (VInt 30))
  = Some rfc_key.
Proof.
  apply (key_uri_secret_roundtrip (@rev (bytes * value))).
  intros d. apply Permutation_rev.
Defined.

(** * Further properties of totp.py *)

(** ** [truncate] on digests of any length *)

Lemma truncate_nonempty (digest : bytes) (digits : Z) :
  digest <> [] ->
  truncate digest digits
  = (code <- Struct.unpack_I
               (slice digest (Z.land (ord (last digest x00)) 15)
                      (Z.land (ord (last digest x00)) 15 + 4)) ;;
     mod_ (Z.land code (Z.lnot (Z.shiftl 1 31))) (pow 10 digits)).
Proof.
  intros Hne. unfold truncate. rewrite (getitem_last digest Hne). reflexivity.
Qed.

Lemma slice_short (s : bytes) (lo : Z) :
  0 <= lo -> len s < lo + 4 -> List.length (slice s lo (lo + 4)) <> 4%nat.
Proof.
  intros H0 H1. unfold slice, clamp_index.
  destruct (Z.ltb_spec lo 0); [lia|].
  destruct (Z.ltb_spec (lo + 4) 0); [lia|].
  rewrite length_firstn, length_skipn. unfold len in *. lia.
Qed.

Lemma pow10_positive (digits : Z) : 0 <= digits -> 0 < 10 ^ digits.
Proof. intros H. apply Z.pow_pos_nonneg; lia. Qed.

Lemma mod_pow10 (v digits : Z) :
  0 <= digits -> mod_ v (pow 10 digits) = Return (v mod 10 ^ digits).
Proof.
  intros Hd. unfold pow, mod_. destruct (Z.ltb_spec digits 0); [lia|].
  pose proof (pow10_positive digits Hd).
  destruct (Z.eqb_spec (10 ^ digits) 0); [lia | reflexivity].
Qed.

(** X1: for a positive digit count, [truncate] raises IndexError on the
    empty digest, raises struct.error on a digest that ends before the
    four bytes at its offset (the low nibble of its last byte), and in
    every other case returns the code read from these four bytes. *)
Theorem truncate_any_digest (digest : bytes) (digits : Z) :
  0 < digits ->
  (digest = [] -> truncate digest digits = Raise IndexError)
  /\ (digest <> [] ->
      len digest < Z.land (ord (last digest x00)) 15 + 4 ->
      truncate digest digits = Raise StructError)
  /\ (Z.land (ord (last digest x00)) 15 + 4 <= len digest ->
      truncate digest digits
      = Return
          (Z.land
             (Struct.from_be
                (firstn 4 (skipn (Z.to_nat (Z.land (ord (last digest x00)) 15))
                                 digest)))
             0x7FFFFFFF mod 10 ^ digits)).
Proof.
  intros Hd.
  pose proof (low_nibble_range (ord (last digest x00))) as Ho.
  split; [|split].
  - intros ->. reflexivity.
  - intros Hne Hshort. rewrite (truncate_nonempty digest digits Hne).
    unfold Struct.unpack_I.
    destruct (Nat.eqb_spec (List.length (slice digest
                (Z.land (ord (last digest x00)) 15)
                (Z.land (ord (last digest x00)) 15 + 4))) 4) as [E|E];
      [|reflexivity].
    exfalso. revert E. apply slice_short; lia.
  - intros Hlong.
    assert (Hne : digest <> []) by (intros ->; cbn in Hlong; lia).
    rewrite (truncate_nonempty digest digits Hne).
    rewrite slice_window by lia.
    unfold Struct.unpack_I.
    assert (Hl : List.length
                   (firstn 4 (skipn (Z.to_nat (Z.land (ord (last digest x00)) 15))
                                    digest)) = 4%nat).
    { rewrite length_firstn, length_skipn. unfold len in Hlong. lia. }
    rewrite Hl. cbn [Nat.eqb bind].
    rewrite land_clear_bit31.
    + apply mod_pow10. lia.
    + pose proof (from_be_range
                    (firstn 4 (skipn (Z.to_nat (Z.land (ord (last digest x00)) 15))
                                     digest))) as Hr.
      rewrite Hl in Hr. exact Hr.
Qed.

Lemma truncate_any_digest_witness :
  truncate [] 6 = Raise IndexError
  /\ truncate (repeat xff 16) 6 = Raise StructError
  /\ truncate (repeat x00 19) 6 = Return 0.
Proof.
  split; [|split].
  - apply (proj1 (truncate_any_digest [] 6 ltac:(lia))). reflexivity.
  - apply (proj1 (proj2 (truncate_any_digest (repeat xff 16) 6 ltac:(lia)))).
    + discriminate.
    + vm_compute. reflexivity.
  - apply (proj2 (proj2 (truncate_any_digest (repeat x00 19) 6 ltac:(lia)))).
    vm_compute. discriminate.
Defined.

(** The part of [truncate] that does not depend on [digits]: a value of
    31 bits, or the error of one of the steps. *)
Lemma truncate_factor (digest : bytes) :
  exists r : result Z,
    (forall digits,
        truncate digest digits = (v <- r ;; mod_ v (pow 10 digits)))
    /\ (forall v, r = Return v -> 0 <= v < 2 ^ 31).
Proof.
  exists (last <- getitem digest (-1) ;;
          byte <- Struct.unpack_B last ;;
          code <- Struct.unpack_I
                    (slice digest (Z.land byte 15) (Z.land byte 15 + 4)) ;;
          Return (Z.land code (Z.lnot (Z.shiftl 1 31)))).
  split.
  - intros digits. unfold truncate.
    destruct (getitem digest (-1)) as [l| |]; cbn [bind]; try reflexivity.
    destruct (Struct.unpack_B l) as [b| |]; cbn [bind]; try reflexivity.
    destruct (Struct.unpack_I _) as [c| |]; reflexivity.
  - intros v.
    destruct (getitem digest (-1)) as [l| |]; cbn [bind]; try discriminate.
    destruct (Struct.unpack_B l) as [b| |]; cbn [bind]; try discriminate.
    unfold Struct.unpack_I.
    destruct (Nat.eqb_spec (List.length (slice digest (Z.land b 15)
                                               (Z.land b 15 + 4))) 4) as [E|E];
      cbn [bind]; try discriminate.
    intros [= <-].
    pose proof (from_be_range (slice digest (Z.land b 15) (Z.land b 15 + 4)))
      as Hr.
    rewrite E in Hr. rewrite land_clear_bit31 by exact Hr.
    change 0x7FFFFFFF with (Z.ones 31). rewrite Z.land_ones by lia.
    apply Z.mod_pos_bound. lia.
Qed.

(** X2: a code that [truncate] returns is below 2^31, whatever the digit
    count; from 10 digits on the digit count makes no difference to the
    outcome. *)
Theorem truncate_at_most_31_bits (digest : bytes) (digits : Z) :
  0 < digits ->
  (forall code, truncate digest digits = Return code -> 0 <= code < 2 ^ 31)
  /\ (10 <= digits -> truncate digest digits = truncate digest 10).
Proof.
  intros Hd. destruct (truncate_factor digest) as (r & Hr & Hv).
  split.
  - intros code. rewrite Hr. destruct r as [v| |]; cbn [bind]; try discriminate.
    rewrite mod_pow10 by lia. intros [= <-].
    pose proof (Hv v eq_refl). pose proof (pow10_positive digits ltac:(lia)).
    pose proof (Z.mod_pos_bound v (10 ^ digits) ltac:(lia)).
    pose proof (Z.mod_le v (10 ^ digits) ltac:(lia) ltac:(lia)). lia.
  - intros H10. rewrite !Hr. destruct r as [v| |]; cbn [bind]; try reflexivity.
    rewrite !mod_pow10 by lia. pose proof (Hv v eq_refl).
    assert (10 ^ 10 <= 10 ^ digits) by (apply Z.pow_le_mono_r; lia).
    rewrite !Z.mod_small; [reflexivity | lia | lia].
Qed.

Lemma truncate_at_most_31_bits_witness :
  (forall code, truncate (repeat xff 20) 12 = Return code -> 0 <= code < 2 ^ 31)
  /\ truncate (repeat xff 20) 12 = truncate (repeat xff 20) 10.
Proof.
  split.
  - apply (proj1 (truncate_at_most_31_bits (repeat xff 20) 12 ltac:(lia))).
  - apply (proj2 (truncate_at_most_31_bits (repeat xff 20) 12 ltac:(lia))). lia.
Defined.

(** X3: codes of different lengths agree: when [truncate] returns a code
    for [d2] digits, it returns for every smaller positive digit count
    [d1] the last [d1] decimal digits of that code. *)
Theorem truncate_digits_consistent (digest : bytes) (d1 d2 code : Z) :
  0 < d1 <= d2 ->
  truncate digest d2 = Return code ->
  truncate digest d1 = Return (code mod 10 ^ d1).
Proof.
  intros Hd. destruct (truncate_factor digest) as (r & Hr & _).
  rewrite !Hr. destruct r as [v| |]; cbn [bind]; try discriminate.
  rewrite !mod_pow10 by lia. intros [= <-]. f_equal.
  symmetry. apply Z.mod_mod_divide.
  exists (10 ^ (d2 - d1)). rewrite <- Z.pow_add_r by lia. f_equal. lia.
Qed.

Lemma truncate_digits_consistent_witness :
  truncate (repeat xff 20) 6 = Return (147483647 mod 10 ^ 6).
Proof.
  apply (truncate_digits_consistent (repeat xff 20) 6 9 147483647);
    [lia | vm_compute; reflexivity].
Defined.

(** ** Time steps and the codes of a time window *)

Lemma window_quotient (step n k : Z) :
  0 < step -> 0 <= k < step -> (n * step + k) / step = n.
Proof.
  intros Hs Hk. rewrite Z.div_add_l by lia. rewrite Z.div_small by lia. lia.
Qed.

(** X4: with a positive step, the times of the [n]-th window after the
    epoch, from [epoch + n * step] to one second before the next window,
    all have the counter [n]; this holds for negative [n] as well. *)
Theorem time_steps_window (clock epoch step n k : Z) :
  0 < step -> 0 <= k < step ->
  time_steps clock (Some (epoch + n * step + k)) epoch step = Return n.
Proof.
  intros Hs Hk. rewrite time_steps_value by lia. f_equal.
  replace (epoch + n * step + k - epoch) with (n * step + k) by ring.
  apply window_quotient; assumption.
Qed.

Lemma time_steps_window_witness :
  time_steps 0 (Some (100 + 3 * 30 + 29)) 100 30 = Return 3.
Proof.
  apply (time_steps_window 0 100 30 3 29); lia.
Defined.

(** X5: with a positive step the counter never decreases when the time
    advances, and it increases by exactly one when the time advances by
    one step. *)
Theorem time_steps_monotone (clock epoch step t1 t2 : Z) :
  0 < step -> t1 <= t2 ->
  exists q1 q2,
    time_steps clock (Some t1) epoch step = Return q1
    /\ time_steps clock (Some t2) epoch step = Return q2
    /\ q1 <= q2
    /\ time_steps clock (Some (t1 + step)) epoch step = Return (q1 + 1).
Proof.
  intros Hs Ht.
  exists ((t1 - epoch) / step), ((t2 - epoch) / step).
  rewrite !time_steps_value by lia.
  repeat split.
  - apply Z.div_le_mono; lia.
  - f_equal. replace (t1 + step - epoch) with (1 * step + (t1 - epoch)) by ring.
    rewrite Z.div_add_l by lia. ring.
Qed.

Lemma time_steps_monotone_witness :
  exists q1 q2,
    time_steps 0 (Some (-31)) 0 30 = Return q1
    /\ time_steps 0 (Some 29) 0 30 = Return q2
    /\ q1 <= q2
    /\ time_steps 0 (Some (-31 + 30)) 0 30 = Return (q1 + 1).
Proof.
  apply (time_steps_monotone 0 0 30 (-31) 29); lia.
Defined.

(** X6: with a positive step, [totp] gives every time of the [n]-th
    window after the epoch the outcome of [hotp] (with SHA-1) on the
    counter [n]: the code does not change inside a window. *)
Theorem totp_window (clock : Z) (key : bytes) (epoch step n k : Z) :
  0 < step -> 0 <= k < step ->
  totp clock key (Some (epoch + n * step + k)) epoch step
  = hotp key (MInt n) Hmac.sha1.
Proof.
  intros Hs Hk. unfold totp. rewrite time_steps_value by lia.
  replace (epoch + n * step + k - epoch) with (n * step + k) by ring.
  rewrite window_quotient by assumption. reflexivity.
Qed.

Lemma totp_window_witness :
  totp 0 rfc_key (Some (0 + 1 * 30 + 29)) 0 30 = hotp rfc_key (MInt 1) Hmac.sha1.
Proof.
  apply (totp_window 0 rfc_key 0 30 1 29); lia.
Defined.

(** X7: with a positive step, [totp] returns a code, in [0, 10^6), for
    exactly the times from the epoch up to [step * 2^64] seconds after it;
    for every earlier time, even by one second, and every later one it
    raises struct.error. *)
Theorem totp_returns_iff (clock : Z) (key : bytes) (current epoch step : Z) :
  0 < step ->
  (epoch <= current < epoch + step * 2 ^ 64 ->
   exists code,
     totp clock key (Some current) epoch step = Return code
     /\ 0 <= code < 10 ^ 6)
  /\ (current < epoch \/ epoch + step * 2 ^ 64 <= current ->
      totp clock key (Some current) epoch step = Raise StructError).
Proof.
  intros Hs. split.
  - intros Hc.
    assert (Hq : 0 <= (current - epoch) / step < 2 ^ 64).
    { split; [apply Z.div_pos; lia|].
      apply Z.div_lt_upper_bound; lia. }
    unfold totp. rewrite time_steps_value by lia. cbn [bind].
    rewrite hotp_in_range by exact Hq.
    set (d := Hmac.new_digest key _ Hmac.sha1).
    assert (Hd : List.length d = 20%nat) by apply hmac_sha1_length.
    rewrite truncate_long_digest by (unfold len; lia).
    eexists. split; [reflexivity|].
    apply Z.mod_pos_bound. reflexivity.
  - intros Hc. unfold totp. rewrite time_steps_value by lia. cbn [bind].
    apply hotp_out_of_range. destruct Hc as [Hc|Hc].
    + left. apply Z.div_lt_upper_bound; lia.
    + right. apply Z.div_le_lower_bound; lia.
Qed.

Lemma totp_returns_iff_witness :
  (exists code,
      totp 0 rfc_key (Some 100) 100 30 = Return code /\ 0 <= code < 10 ^ 6)
  /\ totp 0 rfc_key (Some 99) 100 30 = Raise StructError.
Proof.
  split.
  - apply (proj1 (totp_returns_iff 0 rfc_key 100 100 30 ltac:(lia))). lia.
  - apply (proj2 (totp_returns_iff 0 rfc_key 99 100 30 ltac:(lia))). lia.
Defined.

(** ** Other hash functions, and the key of the HMAC *)

(** X8: [hotp] returns a code, in [0, 10^6), for every key and every
    counter that is a byte string or an integer in [0, 2^64), with any
    hash function whose digests are at least 19 bytes long. *)
Theorem hotp_long_digests
  (key : bytes) (counter : message) (hashfunc : Hmac.hashfunc) :
  (forall m, 19 <= len (Hmac.hash_digest hashfunc m)) ->
  match counter with
  | MInt n => 0 <= n < 2 ^ 64
  | MBytes _ => True
  end ->
  exists code,
    hotp key counter hashfunc = Return code /\ 0 <= code < 10 ^ 6.
Proof.
  intros Hh Hc. unfold hotp.
  assert (Hm : exists m, hmac_digest key counter hashfunc
                         = Return (Hmac.new_digest key m hashfunc)).
  { unfold hmac_digest. destruct counter as [n|s0].
    - rewrite pack_Q_in_range by exact Hc. eexists. reflexivity.
    - eexists. reflexivity. }
  destruct Hm as (m & ->). cbn [bind].
  rewrite truncate_long_digest by (unfold Hmac.new_digest; apply Hh).
  eexists. split; [reflexivity|].
  apply Z.mod_pos_bound. reflexivity.
Qed.

Lemma hotp_long_digests_witness :
  exists code,
    hotp rfc_key (MBytes []) Hmac.sha1 = Return code /\ 0 <= code < 10 ^ 6.
Proof.
  apply (hotp_long_digests rfc_key (MBytes []) Hmac.sha1).
  - intros m. cbn [Hmac.hash_digest Hmac.sha1]. unfold len.
    rewrite sha1_digest_length. lia.
  - exact I.
Defined.

(** X9: with SHA-1, [hmac_digest] returns a digest of exactly 20 bytes
    for every key and every message that is a byte string or an integer
    in [0, 2^64). *)
Theorem hmac_digest_sha1_length (key : bytes) (msg : message) :
  match msg with
  | MInt n => 0 <= n < 2 ^ 64
  | MBytes _ => True
  end ->
  exists digest,
    hmac_digest key msg Hmac.sha1 = Return digest
    /\ List.length digest = 20%nat.
Proof.
  intros Hm. unfold hmac_digest. destruct msg as [n|s0].
  - rewrite pack_Q_in_range by exact Hm. cbn [bind].
    eexists. split; [reflexivity | apply hmac_sha1_length].
  - cbn [bind]. eexists. split; [reflexivity | apply hmac_sha1_length].
Qed.

Lemma hmac_digest_sha1_length_witness :
  exists digest,
    hmac_digest [] (MInt 0) Hmac.sha1 = Return digest
    /\ List.length digest = 20%nat.
Proof.
  apply (hmac_digest_sha1_length [] (MInt 0)). lia.
Defined.

Lemma repeat_app_one (n : nat) :
  [x00] ++ repeat x00 n = repeat x00 (S n).
Proof. reflexivity. Qed.

(** X10: the HMAC pads its key with zero bytes up to the block of 64
    bytes and replaces a longer key by its SHA-1 digest, so [hmac_digest]
    (and with it [hotp]) gives a key shorter than 64 bytes and the same
    key followed by a zero byte the same outcome, and a key longer than 64
    bytes and its SHA-1 digest the same outcome. *)
Theorem hmac_digest_equivalent_keys (key : bytes) (msg : message) :
  ((List.length key < 64)%nat ->
   hmac_digest (key ++ [x00]) msg Hmac.sha1 = hmac_digest key msg Hmac.sha1
   /\ hotp (key ++ [x00]) msg Hmac.sha1 = hotp key msg Hmac.sha1)
  /\ ((64 < List.length key)%nat ->
      hmac_digest (SHA1.digest key) msg Hmac.sha1 = hmac_digest key msg Hmac.sha1
      /\ hotp (SHA1.digest key) msg Hmac.sha1 = hotp key msg Hmac.sha1).
Proof.
  assert (Hshort : (List.length key < 64)%nat ->
                   forall m, Hmac.new_digest (key ++ [x00]) m Hmac.sha1
                             = Hmac.new_digest key m Hmac.sha1).
  { intros Hk m. unfold Hmac.new_digest.
    cbn [Hmac.block_size Hmac.hash_digest Hmac.sha1]. cbv zeta.
    change (64 <? 16)%nat with false. cbv iota.
    destruct (Nat.ltb_spec 64 (List.length (key ++ [x00])));
      [rewrite length_app in *; cbn [List.length] in *; lia|].
    destruct (Nat.ltb_spec 64 (List.length key)); [lia|].
    rewrite <- app_assoc, repeat_app_one, length_app. cbn [List.length].
    replace (S (64 - (List.length key + 1))) with (64 - List.length key)%nat
      by lia.
    reflexivity. }
  assert (Hlong : (64 < List.length key)%nat ->
                  forall m, Hmac.new_digest (SHA1.digest key) m Hmac.sha1
                            = Hmac.new_digest key m Hmac.sha1).
  { intros Hk m. unfold Hmac.new_digest.
    cbn [Hmac.block_size Hmac.hash_digest Hmac.sha1]. cbv zeta.
    change (64 <? 16)%nat with false. cbv iota.
    rewrite sha1_digest_length.
    change (64 <? 20)%nat with false. cbv iota.
    destruct (Nat.ltb_spec 64 (List.length key)); [|lia].
    rewrite sha1_digest_length. reflexivity. }
  split; intros Hk.
  - assert (E : hmac_digest (key ++ [x00]) msg Hmac.sha1
                = hmac_digest key msg Hmac.sha1).
    { unfold hmac_digest. destruct msg as [n|s0].
      - destruct (Struct.pack_Q n); cbn [bind]; try reflexivity.
        now rewrite Hshort.
      - cbn [bind]. now rewrite Hshort. }
    split; [exact E|]. unfold hotp. now rewrite E.
  - assert (E : hmac_digest (SHA1.digest key) msg Hmac.sha1
                = hmac_digest key msg Hmac.sha1).
    { unfold hmac_digest. destruct msg as [n|s0].
      - destruct (Struct.pack_Q n); cbn [bind]; try reflexivity.
        now rewrite Hlong.
      - cbn [bind]. now rewrite Hlong. }
    split; [exact E|]. unfold hotp. now rewrite E.
Qed.

Lemma hmac_digest_equivalent_keys_witness :
  (hmac_digest (rfc_key ++ [x00]) (MInt 1) Hmac.sha1
   = hmac_digest rfc_key (MInt 1) Hmac.sha1
   /\ hotp (rfc_key ++ [x00]) (MInt 1) Hmac.sha1
      = hotp rfc_key (MInt 1) Hmac.sha1)
  /\ (hmac_digest (SHA1.digest (repeat x01 65)) (MInt 1) Hmac.sha1
      = hmac_digest (repeat x01 65) (MInt 1) Hmac.sha1
      /\ hotp (SHA1.digest (repeat x01 65)) (MInt 1) Hmac.sha1
         = hotp (repeat x01 65) (MInt 1) Hmac.sha1).
Proof.
  split.
  - apply (proj1 (hmac_digest_equivalent_keys rfc_key (MInt 1))).
    vm_compute. lia.
  - apply (proj2 (hmac_digest_equivalent_keys (repeat x01 65) (MInt 1))).
    vm_compute. lia.
Defined.

(** * Further properties of uri.py *)

(** ** The query of a key URI *)

Lemma key_uri_path_and_query
  (dict_items : list (bytes * value) -> list (bytes * value))
  (key issuer accountname : bytes) (digits step : value) :
  break "?"%byte (key_uri dict_items key issuer accountname digits step)
  = (bs "otpauth://totp/" ++ quote issuer (bs "/") ++ bs ":"
       ++ quote accountname (bs "/"),
     Some (urlencode
             (dict_items
                [ (bs "secret", VStr (b32encode key));
                  (bs "issuer", VStr issuer);
                  (bs "algorithm", VStr (bs "SHA1"));
                  (bs "digits", digits);
                  (bs "period", step) ]))).
Proof.
  unfold key_uri. cbv zeta.
  rewrite !app_assoc. rewrite <- (app_assoc _ (bs "?") _).
  change (bs "?" ++ ?u) with ("?"%byte :: u).
  apply break_found.
  rewrite !forallb_app.
  rewrite !(no_delimiter_absent "?"%byte _ eq_refl (quote_slash_no_delimiter _)).
  reflexivity.
Qed.

Lemma key_uri_parsed
  (dict_items : list (bytes * value) -> list (bytes * value))
  (key issuer accountname : bytes) (digits step : value) :
  exists q,
    query_of (key_uri dict_items key issuer accountname digits step) = Some q
    /\ parse_qsl q
       = map (fun kv => (fst kv, str (snd kv)))
             (dict_items
                [ (bs "secret", VStr (b32encode key));
                  (bs "issuer", VStr issuer);
                  (bs "algorithm", VStr (bs "SHA1"));
                  (bs "digits", digits);
                  (bs "period", step) ]).
Proof.
  eexists. split.
  - unfold query_of. rewrite key_uri_path_and_query. cbn [snd].
    rewrite (break_absent _ _ (urlencode_no_hash _)). reflexivity.
  - apply parse_qsl_urlencode.
Qed.

Lemma five_names_distinct (v1 v2 v3 v4 v5 : bytes) :
  NoDup (map fst [ (bs "secret", v1); (bs "issuer", v2); (bs "algorithm", v3);
                   (bs "digits", v4); (bs "period", v5) ]).
Proof.
  cbn [map fst].
  repeat (constructor; [cbn [In]; intros H;
                        repeat (destruct H as [H|H]; [discriminate H|]);
                        exact H|]).
  constructor.
Qed.

(** X11: whatever the order in which the dictionary yields its items, the
    query of the URI that [key_uri] builds reads back as exactly the five
    parameters secret, issuer, algorithm, digits and period, with the
    Base32 text of the key, the issuer (any bytes), "SHA1", and the digits
    and step as strings. *)
Theorem key_uri_parameters
  (dict_items : list (bytes * value) -> list (bytes * value))
  (key issuer accountname : bytes) (digits step : value) :
  (forall d, Permutation d (dict_items d)) ->
  exists q,
    query_of (key_uri dict_items key issuer accountname digits step) = Some q
    /\ Permutation
         [ (bs "secret", b32encode key); (bs "issuer", issuer);
           (bs "algorithm", bs "SHA1"); (bs "digits", str digits);
           (bs "period", str step) ]
         (parse_qsl q)
    /\ lookup (bs "issuer") (parse_qsl q) = Some issuer
    /\ lookup (bs "algorithm") (parse_qsl q) = Some (bs "SHA1")
    /\ lookup (bs "digits") (parse_qsl q) = Some (str digits)
    /\ lookup (bs "period") (parse_qsl q) = Some (str step).
Proof.
  intros Hperm.
  destruct (key_uri_parsed dict_items key issuer accountname digits step)
    as (q & Hq & Hp).
  exists q. split; [exact Hq|].
  assert (P : Permutation
                [ (bs "secret", b32encode key); (bs "issuer", issuer);
                  (bs "algorithm", bs "SHA1"); (bs "digits", str digits);
                  (bs "period", str step) ]
                (parse_qsl q)).
  { rewrite Hp.
    exact (Permutation_map
             (fun kv : bytes * value => (fst kv, str (snd kv)))
             (Hperm [ (bs "secret", VStr (b32encode key));
                      (bs "issuer", VStr issuer);
                      (bs "algorithm", VStr (bs "SHA1"));
                      (bs "digits", digits); (bs "period", step) ])). }
  split; [exact P|].
  assert (Hnd : NoDup (map fst (parse_qsl q))).
  { apply (Permutation_NoDup (Permutation_map fst P)).
    apply five_names_distinct. }
  repeat split; apply lookup_in; try exact Hnd;
    apply (Permutation_in _ P); cbn [In]; tauto.
Qed.

Lemma key_uri_parameters_witness :
  exists q,
    query_of (key_uri (@rev (bytes * value)) rfc_key (bs "A&B=C") (bs "alice")
                      (VInt 6) (VInt 30)) = Some q
    /\ Permutation
         [ (bs "secret", b32encode rfc_key); (bs "issuer", bs "A&B=C");
           (bs "algorithm", bs "SHA1"); (bs "digits", str (VInt 6));
           (bs "period", str (VInt 30)) ]
         (parse_qsl q)
    /\ lookup (bs "issuer") (parse_qsl q) = Some (bs "A&B=C")
    /\ lookup (bs "algorithm") (parse_qsl q) = Some (bs "SHA1")
    /\ lookup (bs "digits") (parse_qsl q) = Some (str (VInt 6))
    /\ lookup (bs "period") (parse_qsl q) = Some (str (VInt 30)).
Proof.
  apply (key_uri_parameters (@rev (bytes * value))).
  intros d. apply Permutation_rev.
Defined.

(** ** The label of a key URI *)

Lemma unquote_quoter_slash (c : byte) (rest : bytes) :
  unquote (quoter (bs "/") c ++ rest) = c :: unquote rest.
Proof. destruct c; reflexivity. Qed.

Lemma unquote_quote_slash (s rest : bytes) :
  unquote (quote s (bs "/") ++ rest) = s ++ unquote rest.
Proof.
  unfold quote. induction s as [|c s IH]; [reflexivity|].
  cbn [flat_map]. rewrite <- app_assoc, unquote_quoter_slash, IH. reflexivity.
Qed.

Lemma quoter_slash_no_colon (c : byte) :
  forallb (fun b => negb (Byte.eqb b ":"%byte)) (quoter (bs "/") c) = true.
Proof. destruct c; vm_compute; reflexivity. Qed.

Lemma strip_prefix_app (p s : bytes) : strip_prefix p (p ++ s) = Some s.
Proof.
  induction p as [|x p IH]; [reflexivity|].
  cbn [app strip_prefix]. now rewrite (Byte.byte_dec_lb eq_refl).
Qed.

Lemma label_of_path (issuer accountname : bytes) :
  match break ":"%byte (quote issuer (bs "/") ++ bs ":"
                          ++ quote accountname (bs "/")) with
  | (i, Some a) => Some (unquote i, unquote a)
  | (_, None) => None
  end = Some (issuer, accountname).
Proof.
  change (bs ":" ++ ?u) with (":"%byte :: u).
  rewrite break_found
    by (unfold quote; apply flat_map_forallb, quoter_slash_no_colon).
  rewrite <- (app_nil_r (quote issuer (bs "/"))).
  rewrite <- (app_nil_r (quote accountname (bs "/"))).
  rewrite !unquote_quote_slash. cbn [unquote]. now rewrite !app_nil_r.
Qed.

(** X12: the label of the URI that [key_uri] builds reads back as the
    issuer and the account name, for all byte strings (a ':', '?' or '%'
    in either of them is percent-encoded), and whatever the order of the
    dictionary. *)
Theorem key_uri_label
  (dict_items : list (bytes * value) -> list (bytes * value))
  (key issuer accountname : bytes) (digits step : value) :
  label_of (key_uri dict_items key issuer accountname digits step)
  = Some (issuer, accountname).
Proof.
  unfold label_of. rewrite key_uri_path_and_query. cbn [fst].
  rewrite strip_prefix_app. apply label_of_path.
Qed.

(** X13: two calls of [key_uri] that build the same URI were given the
    same key, the same issuer and account name, and digits and step with
    the same text: no two keys share a URI. *)
Theorem key_uri_injective
  (items1 items2 : list (bytes * value) -> list (bytes * value))
  (key1 key2 issuer1 issuer2 account1 account2 : bytes)
  (digits1 digits2 step1 step2 : value) :
  (forall d, Permutation d (items1 d)) ->
  (forall d, Permutation d (items2 d)) ->
  key_uri items1 key1 issuer1 account1 digits1 step1
  = key_uri items2 key2 issuer2 account2 digits2 step2 ->
  key1 = key2 /\ issuer1 = issuer2 /\ account1 = account2
  /\ str digits1 = str digits2 /\ str step1 = str step2.
Proof.
  intros H1 H2 E.
  (* the label *)
  assert (L : Some (issuer1, account1) = Some (issuer2, account2)).
  { pose proof (f_equal (fun u => fst (break "?"%byte u)) E) as Hpath.
    cbv beta in Hpath. rewrite !key_uri_path_and_query in Hpath.
    cbn [fst] in Hpath. apply app_inv_head in Hpath.
    rewrite <- (label_of_path issuer1 account1),
            <- (label_of_path issuer2 account2), Hpath.
    reflexivity. }
  (* the parameters *)
  destruct (key_uri_parsed items1 key1 issuer1 account1 digits1 step1)
    as (q1 & Hq1 & Hp1).
  destruct (key_uri_parsed items2 key2 issuer2 account2 digits2 step2)
    as (q2 & Hq2 & Hp2).
  rewrite E in Hq1. rewrite Hq1 in Hq2. injection Hq2 as ->.
  set (f := fun kv : bytes * value => (fst kv, str (snd kv))) in *.
  assert (P1 := Permutation_map f (H1 [ (bs "secret", VStr (b32encode key1));
      (bs "issuer", VStr issuer1); (bs "algorithm", VStr (bs "SHA1"));
      (bs "digits", digits1); (bs "period", step1) ])).
  assert (P2 := Permutation_map f (H2 [ (bs "secret", VStr (b32encode key2));
      (bs "issuer", VStr issuer2); (bs "algorithm", VStr (bs "SHA1"));
      (bs "digits", digits2); (bs "period", step2) ])).
  rewrite <- Hp1 in P1. rewrite <- Hp2 in P2. clear Hp1 Hp2.
  cbn [map] in P1, P2. subst f. cbn [fst snd str] in P1, P2.
  assert (Hnd : NoDup (map fst (parse_qsl q2))).
  { apply (Permutation_NoDup (Permutation_map fst P1)).
    apply five_names_distinct. }
  assert (V : forall name v1 v2,
             In (name, v1) (parse_qsl q2) -> In (name, v2) (parse_qsl q2) ->
             v1 = v2).
  { intros name v1 v2 I1 I2.
    pose proof (lookup_in name v1 _ Hnd I1) as L1.
    pose proof (lookup_in name v2 _ Hnd I2) as L2.
    congruence. }
  assert (K : b32encode key1 = b32encode key2).
  { apply (V (bs "secret"));
      [apply (Permutation_in _ P1) | apply (Permutation_in _ P2)];
      cbn [In]; tauto. }
  assert (D : str digits1 = str digits2).
  { apply (V (bs "digits"));
      [apply (Permutation_in _ P1) | apply (Permutation_in _ P2)];
      cbn [In]; tauto. }
  assert (S : str step1 = str step2).
  { apply (V (bs "period"));
      [apply (Permutation_in _ P1) | apply (Permutation_in _ P2)];
      cbn [In]; tauto. }
  injection L as -> ->.
  repeat split; try assumption.
  pose proof (b32decode_b32encode key1) as R1.
  pose proof (b32decode_b32encode key2) as R2.
  rewrite K in R1. congruence.
Qed.

Lemma key_uri_injective_witness :
  rfc_key = rfc_key /\ bs "A" = bs "A" /\ bs "b" = bs "b"
  /\ str (VInt 6) = str (VStr (bs "6")) /\ str (VInt 30) = str (VInt 30).
Proof.
  apply (key_uri_injective (@rev (bytes * value)) (@rev (bytes * value))
           rfc_key rfc_key (bs "A") (bs "A") (bs "b") (bs "b")
           (VInt 6) (VStr (bs "6")) (VInt 30) (VInt 30)).
  - intros d. apply Permutation_rev.
  - intros d. apply Permutation_rev.
  - vm_compute. reflexivity.
Defined.

(** ** The characters of a key URI *)





(** ** The Base32 text of the key *)

Lemma b32char_in_tab (v : Z) : 0 <= v < 32 -> b32_char (b32char v) = true.
Proof.
  intros Hv.
  assert (exists k, (k < 32)%nat /\ v = Z.of_nat k) as (k & Hk & ->)
    by (exists (Z.to_nat v); lia).
  do 32 (destruct k as [|k]; [vm_compute; reflexivity|]). lia.
Qed.

Lemma encode_quantum_chars (q : bytes) :
  forallb b32_char (encode_quantum q) = true.
Proof.
  unfold encode_quantum. apply forallb_forall. intros c Hc.
  apply in_map_iff in Hc as (v & <- & Hv).
  apply b32char_in_tab.
  exact (proj1 (Forall_forall _ _) (quintets_range _) v Hv).
Qed.

Lemma firstn_chars (k : nat) (s : bytes) :
  forallb b32_char s = true -> forallb b32_char (firstn k s) = true.
Proof.
  intros H. rewrite <- (firstn_skipn k s), forallb_app in H.
  apply andb_true_iff in H. exact (proj1 H).
Qed.

Lemma five_more (n : nat) : ((5 + n + 4) / 5 = S ((n + 4) / 5))%nat.
Proof.
  replace (5 + n + 4)%nat with (1 * 5 + (n + 4))%nat by lia.
  rewrite Nat.div_add_l by lia. reflexivity.
Qed.

(** X15: the Base32 text that [key_uri] puts in the secret parameter is
    padded: for a key of n bytes it has 8 * ceil(n / 5) characters, all of
    them from "A".."Z", "2".."7" and the pad "=". *)
Theorem b32encode_shape (key : bytes) :
  List.length (b32encode key) = (8 * ((List.length key + 4) / 5))%nat
  /\ forallb b32_char (b32encode key) = true.
Proof.
  assert (H : forall (n : nat) (s : bytes),
             (List.length s <= n)%nat ->
             List.length (b32encode s) = (8 * ((List.length s + 4) / 5))%nat
             /\ forallb b32_char (b32encode s) = true).
  { induction n as [|n IH]; intros s Hl.
    - destruct s; [split; reflexivity | simpl in Hl; lia].
    - destruct s as [|a [|b [|c [|d [|e rest]]]]].
      + split; reflexivity.
      + split; [reflexivity|]. cbn [b32encode]. rewrite forallb_app.
        rewrite firstn_chars by apply encode_quantum_chars. reflexivity.
      + split; [reflexivity|]. cbn [b32encode]. rewrite forallb_app.
        rewrite firstn_chars by apply encode_quantum_chars. reflexivity.
      + split; [reflexivity|]. cbn [b32encode]. rewrite forallb_app.
        rewrite firstn_chars by apply encode_quantum_chars. reflexivity.
      + split; [reflexivity|]. cbn [b32encode]. rewrite forallb_app.
        rewrite firstn_chars by apply encode_quantum_chars. reflexivity.
      + change (b32encode (a :: b :: c :: d :: e :: rest))
          with (encode_quantum [a; b; c; d; e] ++ b32encode rest).
        destruct (IH rest ltac:(simpl in Hl; lia)) as [IHl IHc].
        split.
        * rewrite length_app, encode_quantum_length, IHl.
          change (List.length (a :: b :: c :: d :: e :: rest))
            with (5 + List.length rest)%nat.
          rewrite five_more. lia.
        * rewrite forallb_app, encode_quantum_chars, IHc. reflexivity. }
  apply (H (List.length key) key). lia.
Qed.
